(** * FastEMRIWaveforms: the AAK waveform kernel of [src/gpuAAK.cu]

    A shallow embedding of the translation unit [gpuAAK.cu]: the geometry
    primitives, the rotation-coefficient calculator [d_RotCoeff], the
    per-sample synthesis kernel [make_waveform], the spline-segment locator
    [find_start_inds] and the entry point [get_waveform].

    The C++ code computes on [double].  The embedding is written once over an
    interface of the operations the code uses ([Arith], [Libm], [Consts]) and
    is then read at two carriers: IEEE-754 binary64 (Rocq's primitive floats,
    executable) and the real numbers (exact arithmetic).  [int] is modelled
    in [Z]; where the C++ code would overflow, index out of bounds or read
    storage it never wrote, the model's outcome is [Undefined]. *)

From Stdlib Require Import ZArith List String Bool Lia.
From Stdlib Require Import DecimalString.
From Stdlib Require Import PrimFloat FloatOps SpecFloat FloatAxioms.
From Stdlib Require Import Reals Lra ClassicalEpsilon.
Import ListNotations.

Open Scope Z_scope.

(** ** The numeric interface *)

(** The operators of the C++ language on [double] and the IEEE-754 functions
    that are exactly specified ([sqrt], [fabs], [ceil]), with the two
    conversions between [int] and [double]. *)
Class Arith (D : Type) : Type := {
  dadd : D -> D -> D;
  dsub : D -> D -> D;
  dmul : D -> D -> D;
  ddiv : D -> D -> D;
  dneg : D -> D;
  dltb : D -> D -> bool;          (* x < y  *)
  deqb : D -> D -> bool;          (* x == y *)
  dsqrt : D -> D;
  dabs : D -> D;
  dceil : D -> D;
  of_int : Z -> D;                (* int -> double, also the literals 0.0, 1., 2., 3. *)
  to_int : D -> option Z          (* (int) x; undefined when x has no int value *)
}.

(** The functions the kernel takes from [math.h] (device: CUDA's math
    library) and from GSL (device: [jn], [j1]). *)
Class Libm (D : Type) : Type := {
  dsin : D -> D;
  dcos : D -> D;
  datan2 : D -> D -> D;
  dpow : D -> D -> D;
  bessel_Jn : Z -> D -> D;        (* gsl_sf_bessel_Jn(n, x), device jn(n, x) *)
  bessel_J1 : D -> D              (* gsl_sf_bessel_J1(x),    device j1(x)    *)
}.

(** The constants of [global.h] and [math.h] the kernel reads. *)
Class Consts (D : Type) : Type := {
  M_PI : D;
  MTSUN_SI : D;
  GPCINSEC : D;
  YRSID_SI : D;
  AUsec : D
}.

Declare Scope dbl_scope.
Delimit Scope dbl_scope with dbl.
Infix "+" := dadd : dbl_scope.
Infix "-" := dsub : dbl_scope.
Infix "*" := dmul : dbl_scope.
Infix "/" := ddiv : dbl_scope.
Notation "- x" := (dneg x) : dbl_scope.
Infix "<?" := dltb : dbl_scope.
Notation "x >? y" := (dltb y x) (only parsing) : dbl_scope.
Infix "=?" := deqb : dbl_scope.

(** Limits of [int]. *)
Definition INT_MAX : Z := 2147483647.
Definition INT_MIN : Z := -2147483648.
Definition in_int (z : Z) : bool := (INT_MIN <=? z) && (z <=? INT_MAX).

(** ** binary64 *)

Module Binary64.

(** The float of an integer, exact below 2^53 (every [int] is). *)
Definition of_Z (z : Z) : float :=
  match z with
  | Z0 => PrimFloat.zero
  | Zpos _ => PrimFloat.of_uint63 (Uint63Axioms.of_Z z)
  | Zneg p => PrimFloat.opp (PrimFloat.of_uint63 (Uint63Axioms.of_Z (Zpos p)))
  end.

(** The integer of a finite float after rounding towards zero. *)
Definition trunc (x : float) : option Z :=
  match Prim2SF x with
  | S754_zero _ => Some 0
  | S754_finite s m e =>
      let mag := if 0 <=? e then Zpos m * 2 ^ e else Zpos m / 2 ^ (- e) in
      Some (if s then - mag else mag)
  | _ => None
  end.

Definition int_of (x : float) : option Z :=
  match trunc x with
  | Some z => if in_int z then Some z else None
  | None => None
  end.

(** [ceil]: the least integral float not below [x]; zeros, infinities, NaN
    and floats without a fractional part are returned as they are, and a
    negative [x] above -1 gives -0.0. *)
Definition ceil (x : float) : float :=
  match Prim2SF x with
  | S754_finite s m e =>
      if 0 <=? e then x
      else
        let d := 2 ^ (- e) in
        if s then
          let q := Zpos m / d in
          if q =? 0 then PrimFloat.neg_zero else of_Z (- q)
        else of_Z ((Zpos m + d - 1) / d)
  | _ => x
  end.

#[global] Instance arith : Arith float := {|
  dadd := PrimFloat.add;
  dsub := PrimFloat.sub;
  dmul := PrimFloat.mul;
  ddiv := PrimFloat.div;
  dneg := PrimFloat.opp;
  dltb := PrimFloat.ltb;
  deqb := PrimFloat.eqb;
  dsqrt := PrimFloat.sqrt;
  dabs := PrimFloat.abs;
  dceil := ceil;
  of_int := of_Z;
  to_int := int_of
|}.

End Binary64.

(** ** Exact real arithmetic *)

Module Exact.

Definition ltb (x y : R) : bool := if Rlt_dec x y then true else false.
Definition eqb (x y : R) : bool := if Req_dec_T x y then true else false.

(** Rounding towards zero and upwards, from the integer part [Int_part]
    (the floor) of the reals. *)
Definition trunc (x : R) : Z :=
  if Rle_dec 0 x then Int_part x else - Int_part (- x).
Definition ceilZ (x : R) : Z := - Int_part (- x).

Definition int_of (x : R) : option Z :=
  let z := trunc x in if in_int z then Some z else None.

#[global] Instance arith : Arith R := {|
  dadd := Rplus;
  dsub := Rminus;
  dmul := Rmult;
  ddiv := Rdiv;
  dneg := Ropp;
  dltb := ltb;
  deqb := eqb;
  dsqrt := sqrt;
  dabs := Rabs;
  dceil := fun x => IZR (ceilZ x);
  of_int := IZR;
  to_int := int_of
|}.

(** [atan2 y x], the angle of the point (x, y). *)
Definition atan2 (y x : R) : R :=
  if Rlt_dec 0 x then atan (y / x)
  else if Rlt_dec x 0 then
    (if Rle_dec 0 y then atan (y / x) + PI else atan (y / x) - PI)
  else if Rlt_dec 0 y then PI / 2
  else if Rlt_dec y 0 then - (PI / 2)
  else 0.

(** [pow x y] on its real domain; where C's [pow] gives an infinity or a
    NaN (a negative base, a zero base with a negative exponent) the reals
    have no such value and 0 stands for it. *)
Definition pow (x y : R) : R :=
  if Rlt_dec 0 x then Rpower x y
  else if Req_dec_T x 0 then (if Req_dec_T y 0 then 1 else 0)
  else 0.

(** The sum of a series, when it has one. *)
Definition series_sum (u : nat -> R) : R :=
  epsilon (inhabits 0%R) (fun l => infinite_sum u l).

(** The Bessel function of the first kind of integer order: the power
    series for an order [n >= 0], and J_{-n} = (-1)^n J_n. *)
Definition besselJ_nat (n : nat) (x : R) : R :=
  series_sum (fun m =>
    (-1) ^ m / (INR (fact m) * INR (fact (m + n))) * (x / 2) ^ (2 * m + n))%R.

Definition besselJ (n : Z) (x : R) : R :=
  match n with
  | Zneg p => ((-1) ^ Pos.to_nat p * besselJ_nat (Pos.to_nat p) x)%R
  | _ => besselJ_nat (Z.to_nat n) x
  end.

#[global] Instance libm : Libm R := {|
  dsin := sin;
  dcos := cos;
  datan2 := atan2;
  dpow := pow;
  bessel_Jn := besselJ;
  bessel_J1 := besselJ 1
|}.

End Exact.

(** ** Outcomes and the output buffer *)

(** What a call comes to: it returns, it raises the Python error of
    [throw_python_error], or its behaviour is undefined in C++. *)
Inductive outcome (A : Type) : Type :=
| Done (a : A)
| Raised (msg : string) (code : Z)
| Undefined.
Arguments Done {A} a.
Arguments Raised {A} msg code.
Arguments Undefined {A}.

Definition obind {A B : Type} (o : outcome A) (k : A -> outcome B) : outcome B :=
  match o with
  | Done a => k a
  | Raised msg code => Raised msg code
  | Undefined => Undefined
  end.

Declare Scope outcome_scope.
Delimit Scope outcome_scope with outcome.
Notation "x <- o ;; k" := (obind o (fun x => k))
  (at level 61, o at next level, right associativity) : outcome_scope.

(** A read [a[i]] of a C array: undefined out of bounds. *)
Definition rd {A : Type} (a : list A) (i : Z) : outcome A :=
  if i <? 0 then Undefined
  else match nth_error a (Z.to_nat i) with
       | Some v => Done v
       | None => Undefined
       end.

(** A read of an array whose cells may not have been written yet
    (the kernel's staging arrays): undefined on such a cell too. *)
Definition rd_staged {A : Type} (a : list (option A)) (i : Z) : outcome A :=
  (c <- rd a i ;;
   match c with
   | Some v => Done v
   | None => Undefined
   end)%outcome.

Fixpoint upd {A : Type} (a : list A) (i : nat) (v : A) : list A :=
  match a, i with
  | [], _ => []
  | _ :: t, O => v :: t
  | h :: t, S j => h :: upd t j v
  end.

(** A write [a[i] = v]: undefined out of bounds. *)
Definition wr {A : Type} (a : list A) (i : Z) (v : A) : outcome (list A) :=
  if (0 <=? i) && (i <? Z.of_nat (List.length a)) then Done (upd a (Z.to_nat i) v)
  else Undefined.

Section Kernel.

Context {D : Type} {AD : Arith D} {LD : Libm D} {CD : Consts D}.

Local Open Scope dbl_scope.

(** The decimal literal [m]e[e], as the compiler rounds it: for an [m] and
    a power of ten that are exact doubles, one correctly rounded division. *)
Definition dec (m e : Z) : D :=
  if (0 <=? e)%Z then of_int (m * 10 ^ e) else of_int m / of_int (10 ^ (- e)).

(** [cmplx]: a complex number of two doubles. *)
Record cmplx : Type := mk_cmplx { re : D; im : D }.

(** A [double[3]]. *)
Record vec3 : Type := mk_vec3 { c0 : D; c1 : D; c2 : D }.

(** A [double[4]]: the rotation coefficients [rot[0..3]]. *)
Record vec4 : Type := mk_vec4 { rot0 : D; rot1 : D; rot2 : D; rot3 : D }.

(** *** Geometry primitives (lines 14-29) *)

Definition d_dot_product (u v : vec3) : D :=
  c0 u * c0 v + c1 u * c1 v + c2 u * c2 v.

Definition d_cross (u v : vec3) : vec3 :=
  mk_vec3 (c1 u * c2 v - c2 u * c1 v)
          (c2 u * c0 v - c0 u * c2 v)
          (c0 u * c1 v - c1 u * c0 v).

Definition d_vec_norm (u : vec3) : D :=
  dsqrt (c0 u * c0 u + c1 u * c1 u + c2 u * c2 u).

(** *** The rotation-coefficient calculator (lines 31-67) *)

(** The six buffers [d_RotCoeff] writes through its pointer arguments. *)
Record rot_buffers : Type := mk_rot_buffers {
  rot : vec4; n_rot : vec3; L_rot : vec3; S_rot : vec3;
  nxL_rot : vec3; nxS_rot : vec3
}.

Definition d_RotCoeff (iota theta_S phi_S theta_K phi_K alpha : D) : rot_buffers :=
  let n := mk_vec3 (dsin theta_S * dcos phi_S)
                   (dsin theta_S * dsin phi_S)
                   (dcos theta_S) in
  let S := mk_vec3 (dsin theta_K * dcos phi_K)
                   (dsin theta_K * dsin phi_K)
                   (dcos theta_K) in
  let L := mk_vec3
    (dcos iota * dsin theta_K * dcos phi_K
     + dsin iota * (dsin alpha * dsin phi_K - dcos alpha * dcos theta_K * dcos phi_K))
    (dcos iota * dsin theta_K * dsin phi_K
     - dsin iota * (dsin alpha * dcos phi_K + dcos alpha * dcos theta_K * dsin phi_K))
    (dcos iota * dcos theta_K + dsin iota * dcos alpha * dsin theta_K) in
  let nxL := d_cross n L in
  let nxS := d_cross n S in
  let norm := d_vec_norm nxL * d_vec_norm nxS in
  let dot := d_dot_product nxL nxS in
  let norm := if norm <? dec 1 (-6) then dec 1 (-6) else norm in
  let cosrot := dot / norm in
  let dot := d_dot_product L nxS in
  let sinrot := dot in
  let dot := d_dot_product S nxL in
  let sinrot := sinrot - dot in
  let sinrot := sinrot / norm in
  let r0 := of_int 2 * cosrot * cosrot - of_int 1 in
  let r1 := cosrot * sinrot in
  let r2 := - r1 in
  let r3 := r0 in
  mk_rot_buffers (mk_vec4 r0 r1 r2 r3) n L S nxL nxS.

(** *** The synthesis kernel [make_waveform] (lines 69-393) *)

(** The host path ([__CUDACC__] undefined): the loops run from 0 in steps of
    1.  The device path runs the same loop bodies, every thread of the grid
    on its own samples. *)

Definition NUM_PARS : Z := 8.
Definition MAX_SPLINE_POINTS : Z := 160.

(** [for (int i = 0; i < end; i += 1) dst[i] = src[i];] (lines 119-129),
    [fuel] iterations from index [i]. *)
Fixpoint copy_loop (fuel : nat) (i : Z) (src : list D) (dst : list (option D))
  : outcome (list (option D)) :=
  match fuel with
  | O => Done dst
  | S k =>
      (v <- rd src i ;;
       dst' <- wr dst i (Some v) ;;
       copy_loop k (i + 1)%Z src dst')%outcome
  end.

(** The values of the 8 spline-tracked parameters at one sample, with the
    sample's time. *)
Record spline_pars : Type := mk_spline_pars {
  t_ : D; e_ : D; Phi_ : D; gim_ : D; alp_ : D; nu_ : D; gimdot_ : D;
  OmegaPhi_ : D; lam_ : D
}.

(** Lines 187-242. *)
Definition eval_splines (spline_coeffs start_t : list (option D))
    (interval_inds : list Z) (init_length : Z) (delta_t : D) (i : Z)
  : outcome spline_pars :=
  (let t := delta_t * of_int i in
   old_ind <- rd interval_inds i ;;
   start_t_i <- rd_staged start_t old_ind ;;
   e_y <- rd_staged spline_coeffs ((0 * init_length + old_ind) * NUM_PARS + 0)%Z ;;
   e_c1 <- rd_staged spline_coeffs ((1 * init_length + old_ind) * NUM_PARS + 0)%Z ;;
   e_c2 <- rd_staged spline_coeffs ((2 * init_length + old_ind) * NUM_PARS + 0)%Z ;;
   e_c3 <- rd_staged spline_coeffs ((3 * init_length + old_ind) * NUM_PARS + 0)%Z ;;
   Phi_y <- rd_staged spline_coeffs ((0 * init_length + old_ind) * NUM_PARS + 1)%Z ;;
   Phi_c1 <- rd_staged spline_coeffs ((1 * init_length + old_ind) * NUM_PARS + 1)%Z ;;
   Phi_c2 <- rd_staged spline_coeffs ((2 * init_length + old_ind) * NUM_PARS + 1)%Z ;;
   Phi_c3 <- rd_staged spline_coeffs ((3 * init_length + old_ind) * NUM_PARS + 1)%Z ;;
   gim_y <- rd_staged spline_coeffs ((0 * init_length + old_ind) * NUM_PARS + 2)%Z ;;
   gim_c1 <- rd_staged spline_coeffs ((1 * init_length + old_ind) * NUM_PARS + 2)%Z ;;
   gim_c2 <- rd_staged spline_coeffs ((2 * init_length + old_ind) * NUM_PARS + 2)%Z ;;
   gim_c3 <- rd_staged spline_coeffs ((3 * init_length + old_ind) * NUM_PARS + 2)%Z ;;
   alp_y <- rd_staged spline_coeffs ((0 * init_length + old_ind) * NUM_PARS + 3)%Z ;;
   alp_c1 <- rd_staged spline_coeffs ((1 * init_length + old_ind) * NUM_PARS + 3)%Z ;;
   alp_c2 <- rd_staged spline_coeffs ((2 * init_length + old_ind) * NUM_PARS + 3)%Z ;;
   alp_c3 <- rd_staged spline_coeffs ((3 * init_length + old_ind) * NUM_PARS + 3)%Z ;;
   nu_y <- rd_staged spline_coeffs ((0 * init_length + old_ind) * NUM_PARS + 4)%Z ;;
   nu_c1 <- rd_staged spline_coeffs ((1 * init_length + old_ind) * NUM_PARS + 4)%Z ;;
   nu_c2 <- rd_staged spline_coeffs ((2 * init_length + old_ind) * NUM_PARS + 4)%Z ;;
   nu_c3 <- rd_staged spline_coeffs ((3 * init_length + old_ind) * NUM_PARS + 4)%Z ;;
   gimdot_y <- rd_staged spline_coeffs ((0 * init_length + old_ind) * NUM_PARS + 5)%Z ;;
   gimdot_c1 <- rd_staged spline_coeffs ((1 * init_length + old_ind) * NUM_PARS + 5)%Z ;;
   gimdot_c2 <- rd_staged spline_coeffs ((2 * init_length + old_ind) * NUM_PARS + 5)%Z ;;
   gimdot_c3 <- rd_staged spline_coeffs ((3 * init_length + old_ind) * NUM_PARS + 5)%Z ;;
   OmegaPhi_y <- rd_staged spline_coeffs ((0 * init_length + old_ind) * NUM_PARS + 6)%Z ;;
   OmegaPhi_c1 <- rd_staged spline_coeffs ((1 * init_length + old_ind) * NUM_PARS + 6)%Z ;;
   OmegaPhi_c2 <- rd_staged spline_coeffs ((2 * init_length + old_ind) * NUM_PARS + 6)%Z ;;
   OmegaPhi_c3 <- rd_staged spline_coeffs ((3 * init_length + old_ind) * NUM_PARS + 6)%Z ;;
   lam_y <- rd_staged spline_coeffs ((0 * init_length + old_ind) * NUM_PARS + 7)%Z ;;
   lam_c1 <- rd_staged spline_coeffs ((1 * init_length + old_ind) * NUM_PARS + 7)%Z ;;
   lam_c2 <- rd_staged spline_coeffs ((2 * init_length + old_ind) * NUM_PARS + 7)%Z ;;
   lam_c3 <- rd_staged spline_coeffs ((3 * init_length + old_ind) * NUM_PARS + 7)%Z ;;
   let x := t - start_t_i in
   let x2 := x * x in
   let x3 := x * x2 in
   let e := e_y + e_c1 * x + e_c2 * x2 + e_c3 * x3 in
   let Phi := Phi_y + Phi_c1 * x + Phi_c2 * x2 + Phi_c3 * x3 in
   let gim := gim_y + gim_c1 * x + gim_c2 * x2 + gim_c3 * x3 in
   let alp := alp_y + alp_c1 * x + alp_c2 * x2 + alp_c3 * x3 in
   let nu := nu_y + nu_c1 * x + nu_c2 * x2 + nu_c3 * x3 in
   let gimdot := gimdot_y + gimdot_c1 * x + gimdot_c2 * x2 + gimdot_c3 * x3 in
   let OmegaPhi := OmegaPhi_y + OmegaPhi_c1 * x + OmegaPhi_c2 * x2 + OmegaPhi_c3 * x3 in
   let lam := lam_y + lam_c1 * x + lam_c2 * x2 + lam_c3 * x3 in
   Done (mk_spline_pars t e Phi gim alp nu gimdot OmegaPhi lam))%outcome.

(** The values lines 132-146 compute once per call. *)
Record geometry : Type := mk_geometry {
  fill_val : D; g_qS : D; g_qK : D;
  cosqS : D; sinqS : D; cosqK : D; sinqK : D; cosphiK : D; sinphiK : D;
  halfsqrt3 : D; zeta : D
}.

Definition unroll (mu qS qK phiK dist : D) : geometry :=
  let fill_val := dec 1 (-6) in
  let qS := if qS <? fill_val then fill_val else qS in
  let qK := if qK <? fill_val then fill_val else qK in
  let qS := if qS >? M_PI - fill_val then M_PI - fill_val else qS in
  let qK := if qK >? M_PI - fill_val then M_PI - fill_val else qK in
  let cosqS := dcos qS in
  let sinqS := dsin qS in
  let cosqK := dcos qK in
  let sinqK := dsin qK in
  let cosphiK := dcos phiK in
  let sinphiK := dsin phiK in
  let halfsqrt3 := dsqrt (of_int 3) / of_int 2 in
  let mu_sec := mu * MTSUN_SI in
  let zeta := mu_sec / dist / GPCINSEC in
  mk_geometry fill_val qS qK cosqS sinqS cosqK sinqK cosphiK sinphiK halfsqrt3 zeta.

(** Lines 244-272: the clamped [lam] and the orientation it gives. *)
Record orientation : Type := mk_orientation {
  o_lam : D; Ldotn : D; Ldotn2 : D; cos2gam : D; sin2gam : D
}.

Definition orient (g : geometry) (S_phys phiS phiK : D) (p : spline_pars)
  : orientation :=
  let lam := lam_ p in
  let alp := alp_ p in
  let lam := if lam >? M_PI - fill_val g then M_PI - fill_val g else lam in
  let lam := if lam <? fill_val g then fill_val g else lam in
  let coslam := dcos lam in
  let sinlam := dsin lam in
  let cosalp := dcos alp in
  let sinalp := dsin alp in
  let cosqL := cosqK g * coslam + sinqK g * sinlam * cosalp in
  let sinqL := dsqrt (of_int 1 - cosqL * cosqL) in
  let phiLup := sinqK g * sinphiK g * coslam - cosphiK g * sinlam * sinalp
                - cosqK g * sinphiK g * sinlam * cosalp in
  let phiLdown := sinqK g * cosphiK g * coslam + sinphiK g * sinlam * sinalp
                  - cosqK g * cosphiK g * sinlam * cosalp in
  let phiL := datan2 phiLup phiLdown in
  let Ldotn := cosqL * cosqS g + sinqL * sinqS g * dcos (phiL - phiS) in
  let Ldotn2 := Ldotn * Ldotn in
  let Sdotn := cosqK g * cosqS g + sinqK g * sinqS g * dcos (phiK - phiS) in
  let beta :=
    if S_phys =? of_int 0 then of_int 0
    else
      let betaup := - Sdotn + coslam * Ldotn in
      let betadown := sinqS g * dsin (phiK - phiS) * sinlam * cosalp
                      + (cosqK g * Sdotn - cosqS g) / sinqK g * sinlam * sinalp in
      datan2 betaup betadown in
  let gam := of_int 2 * (gim_ p + beta) in
  let cos2gam := dcos gam in
  let sin2gam := dsin gam in
  mk_orientation lam Ldotn Ldotn2 cos2gam sin2gam.

(** Lines 274-318: the two antenna response pairs.  [cosorbphs] is set
    under [mich] only and read under [mich] only (line 333). *)
Record antenna : Type := mk_antenna {
  FplusI : D; FcrosI : D; FplusII : D; FcrosII : D
}.

Definition orbphs_at (t : D) : D := of_int 2 * M_PI * t / YRSID_SI.
Definition cosorbphs_at (phiS t : D) : D := dcos (orbphs_at t - phiS).

Definition antenna_pattern (g : geometry) (mich : bool) (phiS phiK t : D)
  : antenna :=
  if mich then
    let orbphs := orbphs_at t in
    let cosorbphs := cosorbphs_at phiS t in
    let sinorbphs := dsin (orbphs - phiS) in
    let cosq := dec 5 (-1) * cosqS g - halfsqrt3 g * sinqS g * cosorbphs in
    let phiw := orbphs + datan2 (halfsqrt3 g * cosqS g + dec 5 (-1) * sinqS g * cosorbphs)
                                (sinqS g * sinorbphs) in
    let psiup := dec 5 (-1) * cosqK g - halfsqrt3 g * sinqK g * dcos (orbphs - phiK)
                 - cosq * (cosqK g * cosqS g + sinqK g * sinqS g * dcos (phiK - phiS)) in
    let psidown := dec 5 (-1) * sinqK g * sinqS g * dsin (phiK - phiS)
                   - halfsqrt3 g * dcos orbphs
                     * (cosqK g * sinqS g * dsin phiS - cosqS g * sinqK g * dsin phiK)
                   - halfsqrt3 g * dsin orbphs
                     * (cosqS g * sinqK g * dcos phiK - cosqK g * sinqS g * dcos phiS) in
    let psi := datan2 psiup psidown in
    let cosq1 := dec 5 (-1) * (of_int 1 + cosq * cosq) in
    let cos2phi := dcos (of_int 2 * phiw) in
    let sin2phi := dsin (of_int 2 * phiw) in
    let cos2psi := dcos (of_int 2 * psi) in
    let sin2psi := dsin (of_int 2 * psi) in
    mk_antenna (cosq1 * cos2phi * cos2psi - cosq * sin2phi * sin2psi)
               (cosq1 * cos2phi * sin2psi + cosq * sin2phi * cos2psi)
               (cosq1 * sin2phi * cos2psi + cosq * cos2phi * sin2psi)
               (cosq1 * sin2phi * sin2psi - cosq * cos2phi * cos2psi)
  else
    mk_antenna (of_int 1) (of_int 0) (of_int 0) (of_int 1).

(** Line 320. *)
Definition amplitude (g : geometry) (M_phys : D) (p : spline_pars) : D :=
  dpow (dabs (OmegaPhi_ p) * M_phys * MTSUN_SI) (of_int 2 / of_int 3) * zeta g.

(** Lines 338-360: the five Bessel values of harmonic [n]. *)
Definition bessel5 (n : Z) (e : D) : D * D * D * D * D :=
  let ne := of_int n * e in
  let J0 := if (n =? 1)%Z then of_int (-1) * bessel_J1 ne
            else bessel_Jn (n - 2) ne in
  let J1 := bessel_Jn (n - 1) ne in
  let J2 := bessel_Jn n ne in
  let J3 := bessel_Jn (n + 1) ne in
  let J4 := bessel_Jn (n + 2) ne in
  (J0, J1, J2, J3, J4).

(** Lines 362-374: the plus and cross amplitudes of harmonic [n], rotated
    to the NK wave frame. *)
Definition polarizations (g : geometry) (mich : bool) (phiS : D)
    (p : spline_pars) (o : orientation) (Amp : D) (rot : vec4) (n : Z) : D * D :=
  let e := e_ p in
  let nPhi :=
    if mich then
      let fn := of_int n * nu_ p + gimdot_ p / M_PI in
      let Doppler := of_int 2 * M_PI * fn * AUsec * sinqS g * cosorbphs_at phiS (t_ p) in
      of_int n * Phi_ p + Doppler
    else of_int n * Phi_ p in
  let '(J0, J1, J2, J3, J4) := bessel5 n e in
  let a := of_int (- n) * Amp
           * (J0 - of_int 2 * e * J1 + of_int 2 / of_int n * J2 + of_int 2 * e * J3 - J4)
           * dcos nPhi in
  let b := of_int (- n) * Amp * dsqrt (of_int 1 - e * e)
           * (J0 - of_int 2 * J2 + J4) * dsin nPhi in
  let c := of_int 2 * Amp * J2 * dcos nPhi in
  let Aplus := (- (of_int 1 + Ldotn2 o)) * (a * cos2gam o - b * sin2gam o)
               + c * (of_int 1 - Ldotn2 o) in
  let Acros := of_int 2 * Ldotn o * (b * cos2gam o + a * sin2gam o) in
  let Aplusold := Aplus in
  let Acrosold := Acros in
  let Aplus := Aplusold * rot0 rot + Acrosold * rot1 rot in
  let Acros := Aplusold * rot2 rot + Acrosold * rot3 rot in
  (Aplus, Acros).

(** Lines 377-385: the two channel contributions of one harmonic. *)
Definition project (g : geometry) (mich : bool) (F : antenna) (A : D * D) : D * D :=
  let '(Aplus, Acros) := A in
  if mich then
    (halfsqrt3 g * (FplusI F * Aplus + FcrosI F * Acros),
     halfsqrt3 g * (FplusII F * Aplus + FcrosII F * Acros))
  else
    (FplusI F * Aplus + FcrosI F * Acros,
     FplusII F * Aplus + FcrosII F * Acros).

(** The body of the loop over harmonics (lines 329-388) as a function of
    [n]: the pair [(hnI, hnII)]. *)
Definition harmonic (g : geometry) (mich : bool) (phiS : D)
    (p : spline_pars) (o : orientation) (F : antenna) (Amp : D) (rot : vec4)
    (n : Z) : D * D :=
  project g mich F (polarizations g mich phiS p o Amp rot n).

(** [for (int n = 1; n <= nmodes; n++) { hItemp += hnI; hIItemp += hnII; }],
    [fuel] iterations from [n]. *)
Fixpoint harmonic_loop (h : Z -> D * D) (fuel : nat) (n : Z) (hItemp hIItemp : D)
  : D * D :=
  match fuel with
  | O => (hItemp, hIItemp)
  | S k =>
      let '(hnI, hnII) := h n in
      harmonic_loop h k (n + 1)%Z (hItemp + hnI) (hIItemp + hnII)
  end.

(** Lines 187-323 for sample [i]: everything the loop over harmonics reads,
    as the function from [n] to the pair [(hnI, hnII)]. *)
Definition sample_harmonic (spline_coeffs start_t : list (option D)) (g : geometry)
    (M_phys S_phys phiS phiK : D) (mich : bool) (delta_t : D)
    (interval_inds : list Z) (init_length : Z) (i : Z) : outcome (Z -> D * D) :=
  (p <- eval_splines spline_coeffs start_t interval_inds init_length delta_t i ;;
   let o := orient g S_phys phiS phiK p in
   let F := antenna_pattern g mich phiS phiK (t_ p) in
   let Amp := amplitude g M_phys p in
   let rb := d_RotCoeff (o_lam o) (g_qS g) phiS (g_qK g) phiK (alp_ p) in
   Done (harmonic g mich phiS p o F Amp (rot rb)))%outcome.

(** Lines 187-389 for sample [i]: the accumulated [(hItemp, hIItemp)].
    With [nmodes = INT_MAX] the loop's [n++] overflows. *)
Definition sample (spline_coeffs start_t : list (option D)) (g : geometry)
    (M_phys S_phys phiS phiK : D) (nmodes : Z) (mich : bool) (delta_t : D)
    (interval_inds : list Z) (init_length : Z) (i : Z) : outcome (D * D) :=
  (h <- sample_harmonic spline_coeffs start_t g M_phys S_phys phiS phiK mich
                        delta_t interval_inds init_length i ;;
   if (nmodes =? INT_MAX)%Z then Undefined
   else Done (harmonic_loop h (Z.to_nat nmodes) 1%Z (of_int 0) (of_int 0)))%outcome.

(** *** The output buffer *)

(** The caller's [waveform] array, and the stores the call has made to it
    so far, oldest first. *)
Record mem : Type := mk_mem {
  waveform : list cmplx;
  stores : list (Z * cmplx)
}.

(** A computation on the output buffer; the buffer survives an error. *)
Definition M (A : Type) : Type := mem -> outcome A * mem.

Definition ret {A : Type} (a : A) : M A := fun s => (Done a, s).

Definition bind {A B : Type} (m : M A) (k : A -> M B) : M B :=
  fun s =>
    match m s with
    | (Done a, s') => k a s'
    | (Raised msg code, s') => (Raised msg code, s')
    | (Undefined, s') => (Undefined, s')
    end.

Definition lift {A : Type} (o : outcome A) : M A := fun s => (o, s).

(** [waveform[i] = v]. *)
Definition store (i : Z) (v : cmplx) : M unit :=
  fun s =>
    match wr (waveform s) i v with
    | Done w => (Done tt, mk_mem w (stores s ++ [(i, v)]))
    | _ => (Undefined, s)
    end.

(** The body of the loop over samples (lines 165-392). *)
Definition sample_step (spline_coeffs start_t : list (option D)) (g : geometry)
    (M_phys S_phys phiS phiK : D) (nmodes : Z) (mich : bool) (delta_t : D)
    (interval_inds : list Z) (init_length : Z) (i : Z) : M unit :=
  bind (store i (mk_cmplx (of_int 0) (of_int 0))) (fun _ =>
  bind (lift (sample spline_coeffs start_t g M_phys S_phys phiS phiK nmodes mich
                     delta_t interval_inds init_length i)) (fun h =>
  store i (mk_cmplx (fst h) (- snd h)))).

(** [for (int i = 0; i < data_length; i += 1) ...], [fuel] iterations
    from [i]. *)
Fixpoint sample_loop (step : Z -> M unit) (fuel : nat) (i : Z) : M unit :=
  match fuel with
  | O => ret tt
  | S k => bind (step i) (fun _ => sample_loop step k (i + 1)%Z)
  end.

Definition make_waveform (interp_array : list D)
    (M_phys S_phys mu qS phiS qK phiK dist : D) (nmodes : Z) (mich : bool)
    (delta_t : D) (start_t_all : list D) (interval_inds : list Z)
    (data_length init_length : Z) : M unit :=
  if negb (in_int (4 * NUM_PARS * init_length)) then lift Undefined
  else
    bind (lift (copy_loop (Z.to_nat (4 * NUM_PARS * init_length)) 0 interp_array
                  (repeat None (Z.to_nat (NUM_PARS * 4 * MAX_SPLINE_POINTS)))))
         (fun spline_coeffs =>
    bind (lift (copy_loop (Z.to_nat init_length) 0 start_t_all
                  (repeat None (Z.to_nat MAX_SPLINE_POINTS))))
         (fun start_t =>
    let g := unroll mu qS qK phiK dist in
    sample_loop (sample_step spline_coeffs start_t g M_phys S_phys phiS phiK
                   nmodes mich delta_t interval_inds init_length)
                (Z.to_nat data_length) 0)).

(** *** The entry point [get_waveform] (lines 427-461) *)

(** [%d] of [sprintf]. *)
Definition format_int (z : Z) : string := NilZero.string_of_int (Z.to_int z).

(** Modelled from the spec: [throw_python_error] is declared in
    [Utility.hh], which is not among the sources; the spec has the call
    report the error to the caller with its message and abort, so here it
    raises and leaves the output buffer as it is. *)
Definition throw_python_error {A : Type} (str : string) (status : Z) : M A :=
  fun s => (Raised str status, s).

Definition get_waveform (interp_array : list D)
    (M_phys S_phys mu qS phiS qK phiK dist : D) (nmodes : Z) (mich : bool)
    (init_len out_len : Z) (delta_t : D) (t : list D) (interval_inds : list Z)
  : M unit :=
  if (init_len >? MAX_SPLINE_POINTS)%Z then
    let str :=
      ("Initial length is greater than the number of maximum allowable spline points: "
       ++ format_int init_len ++ " > " ++ format_int MAX_SPLINE_POINTS)%string in
    throw_python_error str 23
  else
    make_waveform interp_array M_phys S_phys mu qS phiS qK phiK dist nmodes mich
                  delta_t t interval_inds out_len init_len.

End Kernel.

Arguments cmplx D : clear implicits.
Arguments spline_pars D : clear implicits.
Arguments geometry D : clear implicits.
Arguments orientation D : clear implicits.
Arguments antenna D : clear implicits.
Arguments mem D : clear implicits.
Arguments M D A : clear implicits.
Arguments vec3 D : clear implicits.
Arguments vec4 D : clear implicits.
Arguments rot_buffers D : clear implicits.

(** ** The spline-segment locator [find_start_inds] (lines 398-424) *)

Section Locator.

Context {D : Type} {AD : Arith D}.

Local Open Scope dbl_scope.

(** What the call leaves behind: the two [int] arrays, [*length], and the
    value of the loop index [i] at the exit of the loop. *)
Record located : Type := mk_located {
  start_inds : list Z;
  unit_length : list Z;
  length_out : Z;
  exit_index : Z
}.

(** An [int] result: undefined when it overflows. *)
Definition int_result (z : Z) : outcome Z :=
  if in_int z then Done z else Undefined.

(** [(int) x]. *)
Definition cast_int (x : D) : outcome Z :=
  match to_int x with
  | Some z => int_result z
  | None => Undefined
  end.

(** The loop of lines 404-420 from index [i], with [fuel] iterations left
    before [i < *length] fails; a [break] leaves [i] as it is. *)
Fixpoint locate_loop (t_arr : list D) (delta_t T : D) (new_length : Z)
    (fuel : nat) (i : Z) (start_inds unit_length : list Z)
  : outcome (Z * list Z * list Z) :=
  match fuel with
  | O => Done (i, start_inds, unit_length)
  | S k =>
      (t <- rd t_arr i ;;
       if t <? T then
         c <- cast_int (dceil (t / delta_t)) ;;
         start_inds <- wr start_inds i c ;;
         cur <- rd start_inds i ;;
         prev <- rd start_inds (i - 1)%Z ;;
         d <- int_result (cur - prev)%Z ;;
         unit_length <- wr unit_length (i - 1)%Z d ;;
         locate_loop t_arr delta_t T new_length k (i + 1)%Z start_inds unit_length
       else
         start_inds <- wr start_inds i new_length ;;
         prev <- rd start_inds (i - 1)%Z ;;
         d <- int_result (new_length - prev)%Z ;;
         unit_length <- wr unit_length (i - 1)%Z d ;;
         Done (i, start_inds, unit_length))%outcome
  end.

Definition find_start_inds (start_inds unit_length : list Z) (t_arr : list D)
    (delta_t : D) (length : Z) (new_length : Z) : outcome located :=
  (nm1 <- int_result (new_length - 1)%Z ;;
   let T := of_int nm1 * delta_t in
   start_inds <- wr start_inds 0 0%Z ;;
   r <- locate_loop t_arr delta_t T new_length (Z.to_nat (length - 1)) 1
                    start_inds unit_length ;;
   let '(i, start_inds, unit_length) := r in
   len <- int_result (i + 1)%Z ;;
   Done (mk_located start_inds unit_length len i))%outcome.

End Locator.

(** ** Nominal constants for exact arithmetic *)

(** [global.h] is not among the sources.  For the reals, [M_PI] is pi and
    the physical constants have their nominal values (the solar mass in
    seconds, a gigaparsec in seconds, the sidereal year in seconds, the
    astronomical unit in light-seconds); no property below depends on
    them. *)
#[global] Instance exact_consts : Consts R := {|
  M_PI := PI;
  MTSUN_SI := 4.925491025543576e-6%R;
  GPCINSEC := 1.02927125e17%R;
  YRSID_SI := 31558149.763545603%R;
  AUsec := 499.004783836156412%R
|}.

(** ** The vocabulary of the specification *)

Section Vocabulary.

Context {D : Type} {AD : Arith D} {LD : Libm D} {CD : Consts D}.

Local Open Scope dbl_scope.

(** The sample indices 0, 1, ..., n - 1. *)
Definition Zrange (n : Z) : list Z := map Z.of_nat (seq 0 (Z.to_nat n)).

(** The harmonic indices 1, 2, ..., nmodes. *)
Definition harmonics (nmodes : Z) : list Z := map Z.of_nat (seq 1 (Z.to_nat nmodes)).

(** A staging array of capacity [cap] after its first [n] cells were filled
    from [src]: the other cells are still unwritten. *)
Definition staged (cap n : Z) (src : list D) : list (option D) :=
  map Some (firstn (Z.to_nat n) src) ++ repeat None (Z.to_nat cap - Z.to_nat n).

(** The flat coefficient buffer, laid out as
    [coefficient order (4)] x [segment (init_length)] x [parameter (8)],
    parameter fastest-varying. *)
Definition coefficient (interp_array : list D) (init_length : Z)
    (order segment parameter : Z) : D :=
  nth (Z.to_nat ((order * init_length + segment) * 8 + parameter)) interp_array
      (of_int 0).

(** value + c1 x + c2 x^2 + c3 x^3, with x^2 = x x and x^3 = x x^2. *)
Definition cubic (y c1 c2 c3 x : D) : D :=
  y + c1 * x + c2 * (x * x) + c3 * (x * (x * x)).

(** The spline of one parameter on one segment, at local offset [x]. *)
Definition spline_value (interp_array : list D) (init_length segment : Z) (x : D)
    (parameter : Z) : D :=
  cubic (coefficient interp_array init_length 0 segment parameter)
        (coefficient interp_array init_length 1 segment parameter)
        (coefficient interp_array init_length 2 segment parameter)
        (coefficient interp_array init_length 3 segment parameter) x.

(** The Bessel function of the first kind of integer order [k >= -1], with
    the identity J_{-1} = -J_1 for the order -1. *)
Definition J_order (k : Z) (x : D) : D :=
  if (k =? -1)%Z then - bessel_J1 x else bessel_Jn k x.

(** The two channels accumulated over the harmonic indices 1..nmodes,
    from (0.0, 0.0). *)
Definition accumulate (h : Z -> D * D) (nmodes : Z) : D * D :=
  fold_left (fun acc n => (fst acc + fst (h n), snd acc + snd (h n)))
            (harmonics nmodes) (of_int 0, of_int 0).

(** The stores of a trace that went to cell [i], oldest first. *)
Definition stores_to (i : Z) (trace : list (Z * cmplx D)) : list (cmplx D) :=
  map snd (filter (fun s => (fst s =? i)%Z) trace).

(** The buffers of a call are as the data model has them: at most
    [MAX_SPLINE_POINTS] segments, a coefficient buffer and a knot-time
    array that hold them, an output buffer and a segment map of at least
    [data_length] entries, and every used entry of the map a segment
    index; and [nmodes] leaves room for the loop's last [n++]. *)
Definition valid_call (wave : list (cmplx D)) (interp_array start_t_all : list D)
    (interval_inds : list Z) (nmodes data_length init_length : Z) : bool :=
  (0 <=? init_length)%Z && (init_length <=? MAX_SPLINE_POINTS)%Z
  && (4 * NUM_PARS * init_length <=? Z.of_nat (List.length interp_array))%Z
  && (init_length <=? Z.of_nat (List.length start_t_all))%Z
  && (data_length <=? Z.of_nat (List.length wave))%Z
  && (data_length <=? Z.of_nat (List.length interval_inds))%Z
  && forallb (fun v => (0 <=? v)%Z && (v <? init_length)%Z)
             (firstn (Z.to_nat data_length) interval_inds)
  && (nmodes <? INT_MAX)%Z.

(** The complex number (hItemp, -hIItemp) of line 391 for a sample that is
    defined. *)
Definition sample_value (smp : Z -> outcome (D * D)) (i : Z) : cmplx D :=
  match smp i with
  | Done h => mk_cmplx (fst h) (- snd h)
  | _ => mk_cmplx (of_int 0) (of_int 0)
  end.

(** The stores of a call on a list of cells: cell after cell, the zero of
    line 185 and then the cell's value. *)
Definition trace_of (final : Z -> cmplx D) (cells : list Z) : list (Z * cmplx D) :=
  flat_map (fun i => [(i, mk_cmplx (of_int 0) (of_int 0)); (i, final i)]) cells.

(** An outcome, or a computation on the output buffer, that raises no
    error. *)
Definition quiet {A : Type} (o : outcome A) : Prop :=
  forall msg code, o <> Raised msg code.

Definition quietM {A : Type} (m : M D A) : Prop :=
  forall s msg code, fst (m s) <> Raised msg code.

End Vocabulary.

(** ** The vocabulary of the locator *)

Section LocatorVocabulary.

Context {D : Type} {AD : Arith D}.

Local Open Scope dbl_scope.

(** The end of the output window, [T] of line 401. *)
Definition window_end (delta_t : D) (new_length : Z) : D :=
  of_int (new_length - 1) * delta_t.

(** The first dense sample at or after a knot time, when the cast of
    line 412 gives a non-negative [int]. *)
Definition knot_index (delta_t t : D) : option Z :=
  match to_int (dceil (t / delta_t)) with
  | Some z => if (0 <=? z)%Z && (z <=? INT_MAX)%Z then Some z else None
  | None => None
  end.

(** Knot [i] lies inside the output window, with an index as above. *)
Definition inside (t_arr : list D) (delta_t : D) (new_length : Z) (i : nat) : bool :=
  match nth_error t_arr i with
  | Some t =>
      (t <? window_end delta_t new_length)
      && match knot_index delta_t t with Some _ => true | None => false end
  | None => false
  end.

(** Knot [i] lies at or beyond the end of the output window. *)
Definition outside (t_arr : list D) (delta_t : D) (new_length : Z) (i : nat) : bool :=
  match nth_error t_arr i with
  | Some t => negb (t <? window_end delta_t new_length)
  | None => false
  end.

(** The start index of knot [i]: 0 for the first knot, the output length
    for a knot outside the window. *)
Definition start_index (t_arr : list D) (delta_t : D) (new_length : Z) (i : nat) : Z :=
  match i with
  | O => 0
  | S _ =>
      match nth_error t_arr i with
      | Some t =>
          if t <? window_end delta_t new_length
          then match knot_index delta_t t with Some z => z | None => 0 end
          else new_length
      | None => 0
      end
  end.

(** No early truncation: the knots 1 .. length - 1 are all inside. *)
Definition no_truncation (t_arr : list D) (delta_t : D) (new_length length : Z) : bool :=
  forallb (inside t_arr delta_t new_length) (seq 1 (Z.to_nat length - 1)).

(** Knot [i] is strictly below the end of the output window. *)
Definition below_end (t_arr : list D) (delta_t : D) (new_length : Z) (i : nat) : bool :=
  match nth_error t_arr i with
  | Some t => t <? window_end delta_t new_length
  | None => false
  end.

(** The loop runs to completion: the knots 1 .. length - 1 are all strictly
    below the end of the window, whatever their start indices are. *)
Definition runs_to_completion (t_arr : list D) (delta_t : D) (new_length length : Z)
  : bool :=
  forallb (below_end t_arr delta_t new_length) (seq 1 (Z.to_nat length - 1)).

(** The start index the loop writes for a knot below the end of the
    window, of either sign: the cast of line 412. *)
Definition cast_index (t_arr : list D) (delta_t : D) (i : nat) : Z :=
  match i with
  | O => 0
  | S _ =>
      match nth_error t_arr i with
      | Some t => match to_int (dceil (t / delta_t)) with Some z => z | None => 0 end
      | None => 0
      end
  end.

(** The iteration on knot [i] stays below the end of the window and is
    defined: the cast gives an [int], and so does the difference to the
    start index before it. *)
Definition step_defined (t_arr : list D) (delta_t : D) (new_length : Z) (i : nat) : bool :=
  below_end t_arr delta_t new_length i
  && match nth_error t_arr i with
     | Some t =>
         match to_int (dceil (t / delta_t)) with
         | Some z => in_int z && in_int (z - cast_index t_arr delta_t (i - 1))
         | None => false
         end
     | None => false
     end.

(** The loop runs to completion and every iteration is defined. *)
Definition completes_defined (t_arr : list D) (delta_t : D) (new_length length : Z)
  : bool :=
  forallb (step_defined t_arr delta_t new_length) (seq 1 (Z.to_nat length - 1)).

(** Early truncation at knot [k]: the first knot outside the window. *)
Definition truncated_at (t_arr : list D) (delta_t : D) (new_length length k : Z) : bool :=
  (1 <=? k)%Z && (k <? length)%Z
  && forallb (inside t_arr delta_t new_length) (seq 1 (Z.to_nat k - 1))
  && outside t_arr delta_t new_length (Z.to_nat k).

(** The caller's arrays hold [length] start indices, [length - 1] segment
    lengths and [length] knot times, and the counts are those of an [int]
    array. *)
Definition locator_buffers (start_inds unit_length : list Z) (t_arr : list D)
    (length new_length : Z) : bool :=
  (1 <=? Z.of_nat (List.length start_inds))%Z
  && (length <=? Z.of_nat (List.length start_inds))%Z
  && (length - 1 <=? Z.of_nat (List.length unit_length))%Z
  && (length <=? Z.of_nat (List.length t_arr))%Z
  && (length <? INT_MAX)%Z
  && (0 <=? new_length)%Z && (new_length <=? INT_MAX)%Z.

Definition sumZ (l : list Z) : Z := fold_right Z.add 0%Z l.

(** The arrays hold the start indices of the knots below [i] and the
    lengths of the segments between them. *)
Definition located_upto (t_arr : list D) (delta_t : D) (new_length : Z)
    (si ul : list Z) (i : nat) : Prop :=
  (forall j, (j < i)%nat -> nth_error si j = Some (start_index t_arr delta_t new_length j))
  /\ (forall j, (S j < i)%nat ->
        nth_error ul j = Some (start_index t_arr delta_t new_length (S j)
                               - start_index t_arr delta_t new_length j)%Z).

End LocatorVocabulary.

(** ** A small call, in exact arithmetic *)

Module Example.

(** One segment with all-zero coefficients, and a two-sample output. *)
Definition interp : list R := repeat 0%R 32.
Definition knots : list R := [0%R].
Definition seg_map : list Z := [0; 0].
Definition buffer : mem R := mk_mem [mk_cmplx 7%R 7%R; mk_cmplx 7%R 7%R] [].

(** The largest trajectory the kernel takes: 160 segments. *)
Definition interp160 : list R := repeat 0%R (Z.to_nat 5120).
Definition knots160 : list R := repeat 0%R (Z.to_nat 160).

End Example.

(** * Properties *)

(** ** The rotation coefficients *)

Section RotCoeffFacts.

Context {D : Type} {AD : Arith D} {LD : Libm D}.

(** C3: for every input, floor engaged or not, the coefficients written by
    [d_RotCoeff] satisfy rot[0] = rot[3] and rot[1] = -rot[2].  The code
    stores rot[2] = -rot[1], so the second equation is the first one negated
    once more: it needs negation to be an involution, which holds for
    doubles and for reals. *)
Theorem d_RotCoeff_symmetry
    (dneg_involutive : forall x : D, dneg (dneg x) = x)
    (iota theta_S phi_S theta_K phi_K alpha : D) :
  let r := rot (d_RotCoeff iota theta_S phi_S theta_K phi_K alpha) in
  rot0 r = rot3 r /\ rot1 r = dneg (rot2 r).
Proof.
  intros r. subst r. unfold d_RotCoeff. cbn [rot rot0 rot1 rot2 rot3].
  split; [reflexivity | now rewrite dneg_involutive].
Qed.

End RotCoeffFacts.

Lemma d_RotCoeff_symmetry_witness :
  let r := rot (d_RotCoeff (D := R) 0 0 0 0 0 0)%R in
  rot0 r = rot3 r /\ rot1 r = dneg (rot2 r).
Proof.
  exact (d_RotCoeff_symmetry Ropp_involutive 0 0 0 0 0 0)%R.
Defined.

(** Negation of a binary64 float is an involution as well. *)
Lemma binary64_opp_involutive (x : float) : PrimFloat.opp (PrimFloat.opp x) = x.
Proof.
  apply Prim2SF_inj. rewrite !opp_spec.
  destruct (Prim2SF x) as [s | s | | s m e]; cbn; try rewrite Bool.negb_involutive; reflexivity.
Qed.

Section RotCoeffExact.

Local Open Scope R_scope.

Lemma sum_sqr_nonneg (a b c : R) : 0 <= a * a + b * b + c * c.
Proof. nra. Qed.

(** The sky direction [n] of [d_RotCoeff] is a unit vector. *)
Lemma sky_unit (th ph : R) :
  (sin th * cos ph) * (sin th * cos ph) + (sin th * sin ph) * (sin th * sin ph)
  + cos th * cos th = 1.
Proof.
  pose proof (sin2_cos2 th) as Ht. pose proof (sin2_cos2 ph) as Hp.
  unfold Rsqr in Ht, Hp.
  replace (sin th * cos ph * (sin th * cos ph) + sin th * sin ph * (sin th * sin ph)
           + cos th * cos th)
    with (sin th * sin th * (sin ph * sin ph + cos ph * cos ph) + cos th * cos th)
    by ring.
  rewrite Hp. lra.
Qed.

(** The double-angle identity behind the coefficients: with [a = n x L],
    [b = n x S], [N = |a| |b|] and [n] a unit vector, cosrot = a.b / N is the
    cosine of the angle between a and b, and sinrot = (L.b - S.a) / N is
    twice its sine. *)
Lemma double_angle_identity (n0 n1 n2 L0 L1 L2 S0 S1 S2 N : R) :
  n0 * n0 + n1 * n1 + n2 * n2 = 1 ->
  N <> 0 ->
  let a0 := n1 * L2 - n2 * L1 in
  let a1 := n2 * L0 - n0 * L2 in
  let a2 := n0 * L1 - n1 * L0 in
  let b0 := n1 * S2 - n2 * S1 in
  let b1 := n2 * S0 - n0 * S2 in
  let b2 := n0 * S1 - n1 * S0 in
  N * N = (a0 * a0 + a1 * a1 + a2 * a2) * (b0 * b0 + b1 * b1 + b2 * b2) ->
  let cosrot := (a0 * b0 + a1 * b1 + a2 * b2) / N in
  let sinrot := ((L0 * b0 + L1 * b1 + L2 * b2) - (S0 * a0 + S1 * a1 + S2 * a2)) / N in
  (2 * cosrot * cosrot - 1) * (2 * cosrot * cosrot - 1)
  + (cosrot * sinrot) * (cosrot * sinrot) = 1.
Proof.
  intros Hn HN a0 a1 a2 b0 b1 b2 HNN cosrot sinrot.
  set (d := a0 * b0 + a1 * b1 + a2 * b2) in *.
  set (tau := n0 * (L1 * S2 - L2 * S1) + n1 * (L2 * S0 - L0 * S2)
              + n2 * (L0 * S1 - L1 * S0)).
  assert (Hs : (L0 * b0 + L1 * b1 + L2 * b2) - (S0 * a0 + S1 * a1 + S2 * a2)
               = - (2 * tau)) by (unfold a0, a1, a2, b0, b1, b2, tau; ring).
  assert (Hlag : (a0 * a0 + a1 * a1 + a2 * a2) * (b0 * b0 + b1 * b1 + b2 * b2)
                 = d * d + tau * tau * (n0 * n0 + n1 * n1 + n2 * n2))
    by (unfold d, a0, a1, a2, b0, b1, b2, tau; ring).
  rewrite Hn, Rmult_1_r in Hlag. rewrite Hlag in HNN.
  unfold sinrot, cosrot. rewrite Hs.
  assert (Ht : tau * tau = N * N - d * d) by lra.
  replace ((2 * (d / N) * (d / N) - 1) * (2 * (d / N) * (d / N) - 1)
           + d / N * (- (2 * tau) / N) * (d / N * (- (2 * tau) / N)))
    with (1 + 4 * (d * d) * (d * d + tau * tau - N * N) / (N * N * N * N))
    by (field; exact HN).
  rewrite Ht. replace (d * d + (N * N - d * d) - N * N) with 0 by ring.
  unfold Rdiv. rewrite Rmult_0_r, Rmult_0_l. ring.
Qed.

(** C2: in exact real arithmetic, whenever the product of the norms of
    n x L and n x S is at least the floor 1e-6 (the test [norm < 1e-6]
    fails), the coefficients satisfy rot[0]^2 + rot[1]^2 = 1. *)
Theorem d_RotCoeff_unit (iota theta_S phi_S theta_K phi_K alpha : R) :
  let r := d_RotCoeff iota theta_S phi_S theta_K phi_K alpha in
  dltb (dmul (d_vec_norm (nxL_rot r)) (d_vec_norm (nxS_rot r))) (dec 1 (-6)) = false ->
  rot0 (rot r) * rot0 (rot r) + rot1 (rot r) * rot1 (rot r) = 1.
Proof.
  intros r. subst r. unfold d_RotCoeff.
  cbn [rot rot0 rot1 nxL_rot nxS_rot].
  set (n := mk_vec3 _ _ _). set (S := mk_vec3 (dmul (dsin theta_K) _) _ _).
  set (L := mk_vec3 (dadd _ _) _ _).
  set (N := dmul (d_vec_norm (d_cross n L)) (d_vec_norm (d_cross n S))).
  intros Hfloor. rewrite Hfloor.
  assert (Hge : 1 / 1000000 <= N).
  { revert Hfloor.
    change (dltb N (dec 1 (-6))) with (Exact.ltb N (1 / 1000000)).
    unfold Exact.ltb.
    destruct (Rlt_dec N (1 / 1000000)); [discriminate | intros _; lra]. }
  assert (HN : N <> 0) by lra.
  assert (HNN : N * N = (let a := d_cross n L in c0 a * c0 a + c1 a * c1 a + c2 a * c2 a)
                        * (let b := d_cross n S in c0 b * c0 b + c1 b * c1 b + c2 b * c2 b)).
  { unfold N, d_vec_norm. cbn [dmul dadd dsqrt Exact.arith].
    cbv zeta.
    set (u := _ + _ + _). set (v := _ + _ + _).
    replace (sqrt u * sqrt v * (sqrt u * sqrt v))
      with ((sqrt u * sqrt u) * (sqrt v * sqrt v)) by ring.
    rewrite !sqrt_sqrt; [reflexivity | apply sum_sqr_nonneg | apply sum_sqr_nonneg]. }
  pose proof (sky_unit theta_S phi_S) as Hn.
  exact (double_angle_identity (c0 n) (c1 n) (c2 n) (c0 L) (c1 L) (c2 L)
           (c0 S) (c1 S) (c2 S) N Hn HN HNN).
Qed.

End RotCoeffExact.


Lemma d_RotCoeff_unit_witness :
  let r := (d_RotCoeff (D := R) 0 0 0 (PI / 2) 0 0)%R in
  dltb (dmul (d_vec_norm (nxL_rot r)) (d_vec_norm (nxS_rot r))) (dec 1 (-6)) = false
  /\ (rot0 (rot r) * rot0 (rot r) + rot1 (rot r) * rot1 (rot r) = 1)%R.
Proof.
  assert (H : let r := (d_RotCoeff (D := R) 0 0 0 (PI / 2) 0 0)%R in
              dltb (dmul (d_vec_norm (nxL_rot r)) (d_vec_norm (nxS_rot r))) (dec 1 (-6))
              = false).
  { unfold d_RotCoeff. cbn [nxL_rot nxS_rot]. cbv zeta.
    change (dec 1 (-6)) with (1 / 1000000)%R.
    unfold d_vec_norm, d_cross.
    cbn [c0 c1 c2 dmul dadd dsub dsqrt dsin dcos dltb Exact.arith Exact.libm].
    rewrite sin_0, cos_0, sin_PI2, cos_PI2.
    match goal with
    | |- Exact.ltb (sqrt ?u * sqrt ?v)%R _ = false =>
        replace u with 1%R by ring; replace v with 1%R by ring
    end.
    rewrite sqrt_1. unfold Exact.ltb.
    destruct (Rlt_dec (1 * 1) (1 / 1000000)) as [Hlt | _]; [exfalso; lra | reflexivity]. }
  split; [exact H | exact (d_RotCoeff_unit 0 0 0 (PI / 2) 0 0 H)%R].
Defined.

(** ** Arrays *)

Section ArrayFacts.

Context {A : Type}.

Lemma rd_nth (a : list A) (i : Z) (d : A) :
  0 <= i < Z.of_nat (List.length a) -> rd a i = Done (nth (Z.to_nat i) a d).
Proof.
  intros Hi. unfold rd.
  destruct (i <? 0) eqn:Hneg; [apply Z.ltb_lt in Hneg; lia |].
  destruct (nth_error a (Z.to_nat i)) as [v |] eqn:Hv.
  - now rewrite (nth_error_nth _ _ d Hv).
  - apply nth_error_None in Hv. lia.
Qed.

Lemma rd_some (a : list A) (i : nat) (v : A) :
  nth_error a i = Some v -> rd a (Z.of_nat i) = Done v.
Proof.
  intros Hv. unfold rd.
  destruct (Z.of_nat i <? 0) eqn:Hneg; [apply Z.ltb_lt in Hneg; lia |].
  now rewrite Nat2Z.id, Hv.
Qed.

Lemma length_upd (a : list A) (i : nat) (v : A) :
  List.length (upd a i v) = List.length a.
Proof.
  revert i; induction a as [| h t IH]; intros [| j]; cbn; auto.
Qed.

Lemma upd_app_middle (l1 l2 : list A) (x v : A) :
  upd (l1 ++ x :: l2) (List.length l1) v = l1 ++ v :: l2.
Proof.
  induction l1 as [| h t IH]; cbn; [reflexivity | now rewrite IH].
Qed.

Lemma upd_upd (a : list A) (i : nat) (u v : A) :
  upd (upd a i u) i v = upd a i v.
Proof.
  revert i; induction a as [| h t IH]; intros [| j]; cbn; auto.
  now rewrite IH.
Qed.

Lemma nth_error_upd_same (a : list A) (i : nat) (v : A) :
  (i < List.length a)%nat -> nth_error (upd a i v) i = Some v.
Proof.
  revert i; induction a as [| h t IH]; intros [| j] Hi; cbn in *; try lia; auto.
  apply IH. lia.
Qed.

Lemma nth_error_upd_other (a : list A) (i j : nat) (v : A) :
  i <> j -> nth_error (upd a i v) j = nth_error a j.
Proof.
  revert i j; induction a as [| h t IH]; intros [| i] [| j] Hij; cbn; auto;
    try contradiction.
Qed.

Lemma wr_done (a : list A) (i : nat) (v : A) :
  (i < List.length a)%nat -> wr a (Z.of_nat i) v = Done (upd a i v).
Proof.
  intros Hi. unfold wr.
  replace ((0 <=? Z.of_nat i) && (Z.of_nat i <? Z.of_nat (List.length a))) with true.
  - now rewrite Nat2Z.id.
  - symmetry. apply andb_true_iff. split; [apply Z.leb_le | apply Z.ltb_lt]; lia.
Qed.

Lemma firstn_succ (a : list A) (i : nat) (v : A) :
  nth_error a i = Some v -> firstn (S i) a = firstn i a ++ [v].
Proof.
  revert i; induction a as [| h t IH]; intros [| j] Hv; cbn in *; try discriminate.
  - now inversion Hv.
  - now rewrite (IH j Hv).
Qed.

Lemma skipn_cons_nth (a : list A) (i : nat) (v : A) :
  nth_error a i = Some v -> skipn i a = v :: skipn (S i) a.
Proof.
  revert i; induction a as [| h t IH]; intros [| j] Hv; cbn in *; try discriminate.
  - now inversion Hv.
  - now apply IH.
Qed.

End ArrayFacts.

(** ** The synthesis kernel *)

Section KernelFacts.

Context {D : Type} {AD : Arith D} {LD : Libm D} {CD : Consts D}.

Local Open Scope dbl_scope.

(** The staging loop fills the cells one after the other. *)
Lemma copy_loop_staged (src : list D) (cap : nat) (fuel i : nat) :
  (i + fuel <= List.length src)%nat -> (i + fuel <= cap)%nat ->
  copy_loop fuel (Z.of_nat i) src (map Some (firstn i src) ++ repeat None (cap - i))
  = Done (map Some (firstn (i + fuel) src) ++ repeat None (cap - (i + fuel))).
Proof.
  revert i. induction fuel as [| k IH]; intros i Hsrc Hcap.
  - cbn. now rewrite Nat.add_0_r.
  - cbn [copy_loop].
    destruct (nth_error src i) as [v |] eqn:Hv;
      [| apply nth_error_None in Hv; lia].
    rewrite (rd_some _ _ _ Hv). cbn [obind].
    assert (Hlen : List.length (map Some (firstn i src)) = i).
    { rewrite length_map, length_firstn. lia. }
    rewrite wr_done by (rewrite length_app, Hlen, repeat_length; lia).
    cbn [obind].
    replace (cap - i)%nat with (S (cap - S i)) by lia. cbn [repeat].
    pose proof (upd_app_middle (map Some (firstn i src)) (repeat None (cap - S i))
                  None (Some v)) as Hu.
    rewrite Hlen in Hu. rewrite Hu. clear Hu.
    replace (Z.of_nat i + 1)%Z with (Z.of_nat (S i)) by lia.
    replace (map Some (firstn i src) ++ Some v :: repeat None (cap - S i))
      with (map Some (firstn (S i) src) ++ repeat None (cap - S i)).
    + rewrite IH by lia. now replace (S i + k)%nat with (i + S k)%nat by lia.
    + rewrite (firstn_succ _ _ _ Hv), map_app, <- app_assoc. reflexivity.
Qed.

Lemma copy_loop_from_start (src : list D) (cap n : Z) :
  (n <= Z.of_nat (List.length src))%Z -> (n <= cap)%Z ->
  copy_loop (Z.to_nat n) 0 src (repeat None (Z.to_nat cap)) = Done (staged cap n src).
Proof.
  intros Hsrc Hcap.
  pose proof (copy_loop_staged src (Z.to_nat cap) (Z.to_nat n) 0) as H.
  cbn [firstn map app Nat.add] in H. rewrite Nat.sub_0_r in H.
  apply H; lia.
Qed.

Lemma rd_staged_staged (src : list D) (cap n j : Z) (d : D) :
  (0 <= j < n)%Z -> (n <= Z.of_nat (List.length src))%Z ->
  rd_staged (staged cap n src) j = Done (nth (Z.to_nat j) src d).
Proof.
  intros Hj Hn. unfold rd_staged, staged.
  assert (Hnth : nth_error (map Some (firstn (Z.to_nat n) src)
                            ++ repeat None (Z.to_nat cap - Z.to_nat n)) (Z.to_nat j)
                 = Some (Some (nth (Z.to_nat j) src d))).
  { rewrite nth_error_app1 by (rewrite length_map, length_firstn; lia).
    rewrite nth_error_map, nth_error_firstn.
    destruct (Nat.ltb_spec (Z.to_nat j) (Z.to_nat n)) as [_ | Hge]; [| lia].
    destruct (nth_error src (Z.to_nat j)) as [v |] eqn:Hv.
    - cbn. now rewrite (nth_error_nth _ _ d Hv).
    - apply nth_error_None in Hv. lia. }
  replace j with (Z.of_nat (Z.to_nat j)) at 1 by lia.
  rewrite (rd_some _ _ _ Hnth). reflexivity.
Qed.

(** C5: for every sample index [i] whose map entry is a segment [seg] of
    the trajectory, the kernel stages the coefficient buffer and the knot
    times, and evaluates each of the 8 parameters as
    value + c1 x + c2 x^2 + c3 x^3 at x = i delta_t - start_t[seg], with the
    four coefficients of parameter [p] read from the flat buffer at
    (order * init_length + seg) * 8 + p. *)
Theorem eval_splines_cubic (interp_array start_t_all : list D)
    (interval_inds : list Z) (init_length : Z) (delta_t : D) (i seg : Z) :
  (init_length <= MAX_SPLINE_POINTS)%Z ->
  (4 * NUM_PARS * init_length <= Z.of_nat (List.length interp_array))%Z ->
  (init_length <= Z.of_nat (List.length start_t_all))%Z ->
  rd interval_inds i = Done seg ->
  (0 <= seg < init_length)%Z ->
  let spline_coeffs :=
    staged (NUM_PARS * 4 * MAX_SPLINE_POINTS) (4 * NUM_PARS * init_length) interp_array in
  let start_t := staged MAX_SPLINE_POINTS init_length start_t_all in
  let x := delta_t * of_int i - nth (Z.to_nat seg) start_t_all (of_int 0) in
  copy_loop (Z.to_nat (4 * NUM_PARS * init_length)) 0 interp_array
            (repeat None (Z.to_nat (NUM_PARS * 4 * MAX_SPLINE_POINTS)))
  = Done spline_coeffs
  /\ copy_loop (Z.to_nat init_length) 0 start_t_all
               (repeat None (Z.to_nat MAX_SPLINE_POINTS))
     = Done start_t
  /\ exists p : spline_pars D,
       eval_splines spline_coeffs start_t interval_inds init_length delta_t i = Done p
       /\ t_ p = delta_t * of_int i
       /\ [e_ p; Phi_ p; gim_ p; alp_ p; nu_ p; gimdot_ p; OmegaPhi_ p; lam_ p]
          = map (spline_value interp_array init_length seg x) [0; 1; 2; 3; 4; 5; 6; 7]%Z.
Proof.
  intros Hmax Hinterp Hstart Hseg Hrange spline_coeffs start_t x.
  split; [| split].
  - apply copy_loop_from_start; [exact Hinterp | unfold NUM_PARS, MAX_SPLINE_POINTS in *; lia].
  - apply copy_loop_from_start; [exact Hstart | exact Hmax].
  - unfold eval_splines. rewrite Hseg. cbn [obind].
    subst spline_coeffs start_t.
    rewrite !(rd_staged_staged _ _ _ _ (of_int 0)) by (unfold NUM_PARS in *; lia).
    cbn [obind].
    eexists. split; [reflexivity |]. split; reflexivity.
Qed.

(** The loop over harmonics accumulates the two channels over 1..nmodes. *)
Lemma harmonic_loop_fold (h : Z -> D * D) (fuel n : nat) (a b : D) :
  harmonic_loop h fuel (Z.of_nat n) a b
  = fold_left (fun acc n => (fst acc + fst (h n), snd acc + snd (h n)))
              (map Z.of_nat (seq n fuel)) (a, b).
Proof.
  revert n a b. induction fuel as [| k IH]; intros n a b; cbn [harmonic_loop seq map fold_left].
  - reflexivity.
  - destruct (h (Z.of_nat n)) as [hnI hnII] eqn:Hh.
    replace (Z.of_nat n + 1)%Z with (Z.of_nat (S n)) by lia.
    rewrite IH. cbn [fst snd]. reflexivity.
Qed.

Lemma harmonic_loop_accumulate (h : Z -> D * D) (nmodes : Z) :
  harmonic_loop h (Z.to_nat nmodes) 1 (of_int 0) (of_int 0) = accumulate h nmodes.
Proof. exact (harmonic_loop_fold h (Z.to_nat nmodes) 1 (of_int 0) (of_int 0)). Qed.


(** *** One call of the kernel *)

Section Call.

Variables (interp_array : list D) (M_phys S_phys mu qS phiS qK phiK dist : D)
          (nmodes : Z) (mich : bool) (delta_t : D) (start_t_all : list D)
          (interval_inds : list Z) (data_length init_length : Z).

(** The staging arrays and the per-call values of this call. *)
Local Abbreviation spline_coeffs :=
  (staged (NUM_PARS * 4 * MAX_SPLINE_POINTS) (4 * NUM_PARS * init_length) interp_array).
Local Abbreviation start_t := (staged MAX_SPLINE_POINTS init_length start_t_all).
Local Abbreviation g := (unroll mu qS qK phiK dist).

(** The complex number the call leaves in cell [i], and the stores of the
    call on a list of cells. *)
Local Abbreviation final_value :=
  (sample_value (sample spline_coeffs start_t g M_phys S_phys phiS phiK nmodes mich
                        delta_t interval_inds init_length)).
Local Abbreviation call_trace := (trace_of final_value).

Lemma valid_call_map (wave : list (cmplx D)) (i : Z) :
  valid_call wave interp_array start_t_all interval_inds nmodes data_length init_length
  = true ->
  (0 <= i < data_length)%Z ->
  exists seg, rd interval_inds i = Done seg /\ (0 <= seg < init_length)%Z.
Proof.
  unfold valid_call. rewrite !andb_true_iff.
  intros [[[[[[[_ _] _] _] _] Hmap] Hall] _] Hi.
  apply Z.leb_le in Hmap.
  destruct (nth_error interval_inds (Z.to_nat i)) as [seg |] eqn:Hseg;
    [| apply nth_error_None in Hseg; lia].
  exists seg. split.
  - replace i with (Z.of_nat (Z.to_nat i)) by lia. now apply rd_some.
  - rewrite forallb_forall in Hall.
    assert (Hin : In seg (firstn (Z.to_nat data_length) interval_inds)).
    { apply nth_error_In with (n := Z.to_nat i). rewrite nth_error_firstn.
      destruct (Nat.ltb_spec (Z.to_nat i) (Z.to_nat data_length)); [exact Hseg | lia]. }
    specialize (Hall seg Hin). apply andb_true_iff in Hall.
    destruct Hall as [H0 H1]. apply Z.leb_le in H0. apply Z.ltb_lt in H1. lia.
Qed.

Lemma eval_splines_defined (i seg : Z) :
  (4 * NUM_PARS * init_length <= Z.of_nat (List.length interp_array))%Z ->
  (init_length <= Z.of_nat (List.length start_t_all))%Z ->
  rd interval_inds i = Done seg ->
  (0 <= seg < init_length)%Z ->
  exists p, eval_splines spline_coeffs start_t interval_inds init_length delta_t i = Done p.
Proof.
  intros Hinterp Hstart Hseg Hrange.
  unfold eval_splines. rewrite Hseg. cbn [obind].
  rewrite !(rd_staged_staged _ _ _ _ (of_int 0)) by (unfold NUM_PARS in *; lia).
  cbn [obind]. eexists. reflexivity.
Qed.

(** On a valid call every sample is defined: its harmonic function [h]
    exists and the sample is the accumulation of [h] over 1..nmodes. *)
Lemma sample_defined (wave : list (cmplx D)) (i : Z) :
  valid_call wave interp_array start_t_all interval_inds nmodes data_length init_length
  = true ->
  (0 <= i < data_length)%Z ->
  exists h,
    sample_harmonic spline_coeffs start_t g M_phys S_phys phiS phiK mich delta_t
                    interval_inds init_length i = Done h
    /\ sample spline_coeffs start_t g M_phys S_phys phiS phiK nmodes mich delta_t
              interval_inds init_length i = Done (accumulate h nmodes).
Proof.
  intros Hvalid Hi.
  destruct (valid_call_map wave i Hvalid Hi) as [seg [Hseg Hrange]].
  unfold valid_call in Hvalid. rewrite !andb_true_iff in Hvalid.
  destruct Hvalid as [[[[[[[_ _] Hinterp] Hstart] _] _] _] Hmodes].
  apply Z.leb_le in Hinterp, Hstart. apply Z.ltb_lt in Hmodes.
  destruct (eval_splines_defined i seg Hinterp Hstart Hseg Hrange) as [p Hp].
  unfold sample, sample_harmonic. rewrite Hp. cbn [obind].
  eexists. split; [reflexivity |].
  destruct (nmodes =? INT_MAX)%Z eqn:Hmax; [apply Z.eqb_eq in Hmax; lia |].
  now rewrite harmonic_loop_accumulate.
Qed.

(** The loop over samples, from cell [i] on, [fuel] cells. *)
Lemma sample_loop_run (w0 : list (cmplx D)) (fuel i : nat) (tr : list (Z * cmplx D)) :
  (i + fuel <= List.length w0)%nat ->
  (forall j, (i <= j < i + fuel)%nat ->
     exists h, sample spline_coeffs start_t g M_phys S_phys phiS phiK nmodes mich
                      delta_t interval_inds init_length (Z.of_nat j) = Done h) ->
  sample_loop (sample_step spline_coeffs start_t g M_phys S_phys phiS phiK nmodes mich
                           delta_t interval_inds init_length)
              fuel (Z.of_nat i)
              (mk_mem (map final_value (map Z.of_nat (seq 0 i)) ++ skipn i w0) tr)
  = (Done tt,
     mk_mem (map final_value (map Z.of_nat (seq 0 (i + fuel))) ++ skipn (i + fuel) w0)
            (tr ++ call_trace (map Z.of_nat (seq i fuel)))).
Proof.
  revert i tr. induction fuel as [| k IH]; intros i tr Hlen Hdef.
  - cbn. unfold ret, call_trace. cbn. now rewrite Nat.add_0_r, app_nil_r.
  - cbn [sample_loop]. unfold bind at 1. unfold sample_step at 1.
    assert (Hpre : List.length (map final_value (map Z.of_nat (seq 0 i))) = i)
      by now rewrite !length_map, length_seq.
    destruct (nth_error w0 i) as [x |] eqn:Hx;
      [| apply nth_error_None in Hx; lia].
    rewrite (skipn_cons_nth _ _ _ Hx).
    destruct (Hdef i ltac:(lia)) as [h Hh].
    unfold bind, store, lift. cbn [waveform stores].
    rewrite wr_done by (rewrite length_app, Hpre; cbn; lia).
    cbv beta iota. rewrite Hh. cbv beta iota. cbn [waveform stores].
    rewrite wr_done by (rewrite length_upd, length_app, Hpre; cbn; lia).
    rewrite upd_upd.
    pose proof (upd_app_middle (map final_value (map Z.of_nat (seq 0 i)))
                  (skipn (S i) w0) x (mk_cmplx (fst h) (- snd h))) as Hu.
    rewrite Hpre in Hu. rewrite Hu. clear Hu.
    assert (Hfin : mk_cmplx (fst h) (- snd h) = final_value (Z.of_nat i))
      by (unfold final_value; now rewrite Hh).
    rewrite Hfin.
    replace (map final_value (map Z.of_nat (seq 0 i))
             ++ final_value (Z.of_nat i) :: skipn (S i) w0)
      with (map final_value (map Z.of_nat (seq 0 (S i))) ++ skipn (S i) w0)
      by (rewrite seq_S, !map_app, <- app_assoc; reflexivity).
    replace (Z.of_nat i + 1)%Z with (Z.of_nat (S i)) by lia.
    specialize (IH (S i)).
    unfold bind, store, lift in IH. rewrite IH.
    + replace (S i + k)%nat with (i + S k)%nat by lia.
      f_equal. f_equal. rewrite <- !app_assoc. reflexivity.
    + lia.
    + intros j Hj. apply Hdef. lia.
Qed.

(** What one valid call does: it returns, having stored to each of the
    first [data_length] cells the zero and then the cell's value, in the
    order of the cells, and to no other cell. *)
Lemma make_waveform_run (s : mem D) :
  valid_call (waveform s) interp_array start_t_all interval_inds nmodes data_length
             init_length = true ->
  make_waveform interp_array M_phys S_phys mu qS phiS qK phiK dist nmodes mich
                delta_t start_t_all interval_inds data_length init_length s
  = (Done tt,
     mk_mem (map final_value (Zrange data_length)
             ++ skipn (Z.to_nat data_length) (waveform s))
            (stores s ++ call_trace (Zrange data_length))).
Proof.
  intros Hvalid.
  pose proof Hvalid as Hv. unfold valid_call in Hv. rewrite !andb_true_iff in Hv.
  destruct Hv as [[[[[[[H0 Hmax] Hinterp] Hstart] Hwave] _] _] _].
  apply Z.leb_le in H0, Hmax, Hinterp, Hstart, Hwave.
  unfold make_waveform.
  replace (in_int (4 * NUM_PARS * init_length)) with true
    by (symmetry; unfold in_int, INT_MIN, INT_MAX, NUM_PARS, MAX_SPLINE_POINTS in *;
        apply andb_true_iff; split; apply Z.leb_le; lia).
  cbn [negb].
  rewrite copy_loop_from_start
    by (unfold NUM_PARS, MAX_SPLINE_POINTS in *; lia).
  rewrite copy_loop_from_start by assumption.
  unfold bind at 1. unfold lift at 1. unfold bind at 1. unfold lift at 1.
  destruct s as [w tr]. cbn [waveform stores] in *.
  pose proof (sample_loop_run w (Z.to_nat data_length) 0 tr) as Hrun.
  cbn [seq map app skipn Nat.add] in Hrun.
  apply Hrun; [lia |].
  intros j Hj.
  destruct (sample_defined w (Z.of_nat j) Hvalid ltac:(lia)) as [h [_ Hh]].
  eauto.
Qed.

Lemma stores_to_app (i : Z) (a b : list (Z * cmplx D)) :
  stores_to i (a ++ b) = stores_to i a ++ stores_to i b.
Proof. unfold stores_to. now rewrite filter_app, map_app. Qed.

Lemma stores_to_trace_elsewhere (i : Z) (cells : list Z) :
  ~ In i cells -> stores_to i (call_trace cells) = [].
Proof.
  induction cells as [| c cells IH]; intros Hnot; [reflexivity |].
  unfold call_trace in *. cbn [flat_map].
  rewrite stores_to_app, IH by (intros Hin; apply Hnot; now right).
  unfold stores_to. cbn [filter fst].
  destruct (c =? i)%Z eqn:Hc; [apply Z.eqb_eq in Hc; exfalso; apply Hnot; now left |].
  reflexivity.
Qed.

Lemma stores_to_trace_seq (fuel start i : nat) :
  (start <= i < start + fuel)%nat ->
  stores_to (Z.of_nat i) (call_trace (map Z.of_nat (seq start fuel)))
  = [mk_cmplx (of_int 0) (of_int 0); final_value (Z.of_nat i)].
Proof.
  revert start. induction fuel as [| k IH]; intros start Hi; [lia |].
  cbn [seq map]. unfold call_trace. cbn [flat_map].
  fold (call_trace (map Z.of_nat (seq (S start) k))).
  rewrite stores_to_app. unfold stores_to at 1. cbn [filter fst].
  destruct (Z.of_nat start =? Z.of_nat i)%Z eqn:Hs.
  - apply Z.eqb_eq in Hs. apply Nat2Z.inj in Hs. subst start.
    rewrite stores_to_trace_elsewhere; [reflexivity |].
    rewrite in_map_iff. intros [j [Hj Hin]]. apply in_seq in Hin. lia.
  - apply Z.eqb_neq in Hs. cbn [map app]. apply IH. lia.
Qed.

Lemma stores_to_trace_range (i : Z) :
  stores_to i (call_trace (Zrange data_length))
  = if (0 <=? i)%Z && (i <? data_length)%Z
    then [mk_cmplx (of_int 0) (of_int 0); final_value i] else [].
Proof.
  unfold Zrange.
  destruct ((0 <=? i)%Z && (i <? data_length)%Z) eqn:Hi.
  - apply andb_true_iff in Hi. destruct Hi as [H0 H1].
    apply Z.leb_le in H0. apply Z.ltb_lt in H1.
    replace i with (Z.of_nat (Z.to_nat i)) by lia.
    apply stores_to_trace_seq. lia.
  - apply stores_to_trace_elsewhere.
    rewrite in_map_iff. intros [j [Hj Hin]]. apply in_seq in Hin.
    apply andb_false_iff in Hi. destruct Hi as [Hi | Hi];
      [apply Z.leb_gt in Hi | apply Z.ltb_ge in Hi]; lia.
Qed.

Lemma filled_nth (w : list (cmplx D)) (i : Z) :
  (0 <= i < data_length)%Z ->
  nth_error (map final_value (Zrange data_length) ++ skipn (Z.to_nat data_length) w)
            (Z.to_nat i)
  = Some (final_value i).
Proof.
  intros Hi. unfold Zrange.
  rewrite nth_error_app1 by (rewrite !length_map, length_seq; lia).
  rewrite !nth_error_map.
  replace (nth_error (seq 0 (Z.to_nat data_length)) (Z.to_nat i)) with (Some (Z.to_nat i)).
  - cbn. f_equal. f_equal. lia.
  - symmetry.
    rewrite (nth_error_nth' _ 0%nat) by (rewrite length_seq; lia).
    now rewrite seq_nth by lia.
Qed.


(** C8, as the code has it: one valid call returns; to every cell
    [i < data_length] it makes exactly two stores, the zero of line 185 and
    then the complex number (hI, -hII), with hI and hII the two channels
    accumulated over the harmonic indices 1..nmodes, which is the cell's
    final value; and it makes no store to any other cell. *)
Theorem make_waveform_stores (s : mem D) :
  valid_call (waveform s) interp_array start_t_all interval_inds nmodes data_length
             init_length = true ->
  let r := make_waveform interp_array M_phys S_phys mu qS phiS qK phiK dist nmodes mich
                         delta_t start_t_all interval_inds data_length init_length s in
  fst r = Done tt
  /\ (forall i, (0 <= i < data_length)%Z ->
        exists h,
          sample_harmonic spline_coeffs start_t g M_phys S_phys phiS phiK mich delta_t
                          interval_inds init_length i = Done h
          /\ stores_to i (stores (snd r))
             = stores_to i (stores s)
               ++ [mk_cmplx (of_int 0) (of_int 0);
                   mk_cmplx (fst (accumulate h nmodes)) (- snd (accumulate h nmodes))]
          /\ nth_error (waveform (snd r)) (Z.to_nat i)
             = Some (mk_cmplx (fst (accumulate h nmodes)) (- snd (accumulate h nmodes))))
  /\ (forall i, ~ (0 <= i < data_length)%Z ->
        stores_to i (stores (snd r)) = stores_to i (stores s)).
Proof.
  intros Hvalid r. subst r. rewrite (make_waveform_run s Hvalid).
  cbn [fst snd waveform stores].
  split; [reflexivity |]. split.
  - intros i Hi.
    destruct (sample_defined (waveform s) i Hvalid Hi) as [h [Hh Hs]].
    assert (Hfin : final_value i
                   = mk_cmplx (fst (accumulate h nmodes)) (- snd (accumulate h nmodes)))
      by (unfold final_value; now rewrite Hs).
    exists h. split; [exact Hh |]. split.
    + rewrite stores_to_app, stores_to_trace_range, <- Hfin.
      replace ((0 <=? i)%Z && (i <? data_length)%Z) with true; [reflexivity |].
      symmetry. apply andb_true_iff. split; [apply Z.leb_le | apply Z.ltb_lt]; lia.
    + rewrite <- Hfin. now apply filled_nth.
  - intros i Hi. rewrite stores_to_app, stores_to_trace_range.
    replace ((0 <=? i)%Z && (i <? data_length)%Z) with false; [apply app_nil_r |].
    symmetry. apply andb_false_iff.
    destruct (Z_lt_le_dec i 0); [left; apply Z.leb_gt | right; apply Z.ltb_ge]; lia.
Qed.

(** C9: on a valid call with [nmodes < 1] the loop over harmonics runs no
    iteration, and every cell [i < data_length] is first stored the zero and
    left with the complex number (0.0, -0.0). *)
Theorem make_waveform_no_modes (s : mem D) :
  valid_call (waveform s) interp_array start_t_all interval_inds nmodes data_length
             init_length = true ->
  (nmodes < 1)%Z ->
  let r := make_waveform interp_array M_phys S_phys mu qS phiS qK phiK dist nmodes mich
                         delta_t start_t_all interval_inds data_length init_length s in
  fst r = Done tt
  /\ (forall (h : Z -> D * D) (a b : D),
        harmonic_loop h (Z.to_nat nmodes) 1 a b = (a, b))
  /\ (forall i, (0 <= i < data_length)%Z ->
        nth_error (waveform (snd r)) (Z.to_nat i)
        = Some (mk_cmplx (of_int 0) (- of_int 0))
        /\ stores_to i (stores (snd r))
           = stores_to i (stores s)
             ++ [mk_cmplx (of_int 0) (of_int 0); mk_cmplx (of_int 0) (- of_int 0)]).
Proof.
  intros Hvalid Hmodes r. subst r. rewrite (make_waveform_run s Hvalid).
  cbn [fst snd waveform stores].
  assert (Hfuel : Z.to_nat nmodes = 0%nat) by lia.
  split; [reflexivity |]. split.
  - intros h a b. now rewrite Hfuel.
  - intros i Hi.
    destruct (sample_defined (waveform s) i Hvalid Hi) as [h [_ Hs]].
    assert (Hfin : final_value i = mk_cmplx (of_int 0) (- of_int 0)).
    { unfold final_value. rewrite Hs. unfold accumulate, harmonics.
      rewrite Hfuel. reflexivity. }
    split.
    + rewrite <- Hfin. now apply filled_nth.
    + rewrite stores_to_app, stores_to_trace_range, Hfin.
      replace ((0 <=? i)%Z && (i <? data_length)%Z) with true; [reflexivity |].
      symmetry. apply andb_true_iff. split; [apply Z.leb_le | apply Z.ltb_lt]; lia.
Qed.


End Call.


(** *** The kernel raises no error *)

Lemma quiet_obind {A B : Type} (o : outcome A) (k : A -> outcome B) :
  quiet o -> (forall a, quiet (k a)) -> quiet (obind o k).
Proof.
  intros Ho Hk msg code. destruct o as [a | m c |]; cbn.
  - apply Hk.
  - now destruct (Ho m c).
  - discriminate.
Qed.

Lemma quiet_rd {A : Type} (a : list A) (i : Z) : quiet (rd a i).
Proof.
  intros msg code. unfold rd.
  destruct (i <? 0)%Z; [discriminate |].
  destruct (nth_error a (Z.to_nat i)); discriminate.
Qed.

Lemma quiet_wr {A : Type} (a : list A) (i : Z) (v : A) : quiet (wr a i v).
Proof.
  intros msg code. unfold wr.
  destruct ((0 <=? i)%Z && (i <? Z.of_nat (List.length a))%Z); discriminate.
Qed.

Lemma quiet_rd_staged {A : Type} (a : list (option A)) (i : Z) : quiet (rd_staged a i).
Proof.
  unfold rd_staged. apply quiet_obind; [apply quiet_rd |].
  intros [v |] msg code; discriminate.
Qed.

Lemma quiet_copy_loop (fuel : nat) (i : Z) (src : list D) (dst : list (option D)) :
  quiet (copy_loop fuel i src dst).
Proof.
  revert i dst. induction fuel as [| k IH]; intros i dst; cbn [copy_loop].
  - intros msg code. discriminate.
  - apply quiet_obind; [apply quiet_rd | intros v].
    apply quiet_obind; [apply quiet_wr | intros dst']. apply IH.
Qed.

Lemma quiet_sample (spline_coeffs start_t : list (option D)) (g : geometry D)
    (M_phys S_phys phiS phiK : D) (nmodes : Z) (mich : bool) (delta_t : D)
    (interval_inds : list Z) (init_length i : Z) :
  quiet (sample spline_coeffs start_t g M_phys S_phys phiS phiK nmodes mich delta_t
                interval_inds init_length i).
Proof.
  unfold sample.
  apply quiet_obind;
    [| intros h; destruct (nmodes =? INT_MAX)%Z; intros msg code; discriminate].
  unfold sample_harmonic.
  apply quiet_obind; [| intros p msg code; discriminate].
  unfold eval_splines.
  repeat (apply quiet_obind;
          [first [apply quiet_rd | apply quiet_rd_staged] | intros ?]).
  intros msg code. discriminate.
Qed.

(** The same for computations on the output buffer. *)
Lemma quietM_bind {A B : Type} (m : M D A) (k : A -> M D B) :
  quietM m -> (forall a, quietM (k a)) -> quietM (bind m k).
Proof.
  intros Hm Hk s msg code. unfold bind.
  specialize (Hm s). destruct (m s) as [[a | m' c' |] s']; cbn in *.
  - apply Hk.
  - now destruct (Hm m' c').
  - discriminate.
Qed.

Lemma quietM_lift {A : Type} (o : outcome A) : quiet o -> quietM (lift o : M D A).
Proof. intros Ho s msg code. apply Ho. Qed.

Lemma quietM_store (i : Z) (v : cmplx D) : quietM (store i v).
Proof.
  intros s msg code. unfold store.
  destruct (wr (waveform s) i v); cbn; discriminate.
Qed.

Lemma quietM_sample_loop (step : Z -> M D unit) (fuel : nat) (i : Z) :
  (forall j, quietM (step j)) -> quietM (sample_loop step fuel i).
Proof.
  intros Hstep. revert i. induction fuel as [| k IH]; intros i; cbn [sample_loop].
  - intros s msg code. cbn. discriminate.
  - apply quietM_bind; [apply Hstep | intros _; apply IH].
Qed.

Lemma quietM_make_waveform (interp_array : list D)
    (M_phys S_phys mu qS phiS qK phiK dist : D) (nmodes : Z) (mich : bool)
    (delta_t : D) (start_t_all : list D) (interval_inds : list Z)
    (data_length init_length : Z) :
  quietM (make_waveform interp_array M_phys S_phys mu qS phiS qK phiK dist nmodes mich
                        delta_t start_t_all interval_inds data_length init_length).
Proof.
  unfold make_waveform.
  destruct (negb (in_int (4 * NUM_PARS * init_length))).
  - apply quietM_lift. intros msg code. discriminate.
  - apply quietM_bind; [apply quietM_lift, quiet_copy_loop | intros spline_coeffs].
    apply quietM_bind; [apply quietM_lift, quiet_copy_loop | intros start_t].
    apply quietM_sample_loop. intros j. unfold sample_step.
    apply quietM_bind; [apply quietM_store | intros _].
    apply quietM_bind; [apply quietM_lift, quiet_sample | intros h].
    apply quietM_store.
Qed.

(** C1: with more than 160 segments [get_waveform] raises the error, with
    its message and before any store to the output buffer; with at most 160
    it is the call of the kernel, which raises no error, and which returns
    when the buffers are valid. *)
Theorem get_waveform_guard (interp_array : list D)
    (M_phys S_phys mu qS phiS qK phiK dist : D) (nmodes : Z) (mich : bool)
    (init_len out_len : Z) (delta_t : D) (t : list D) (interval_inds : list Z)
    (s : mem D) :
  let call := get_waveform interp_array M_phys S_phys mu qS phiS qK phiK dist nmodes mich
                           init_len out_len delta_t t interval_inds in
  ((160 < init_len)%Z ->
     call s
     = (Raised ("Initial length is greater than the number of maximum allowable spline points: "
                ++ format_int init_len ++ " > 160")%string 23, s))
  /\ ((init_len <= 160)%Z ->
        call s
        = make_waveform interp_array M_phys S_phys mu qS phiS qK phiK dist nmodes mich
                        delta_t t interval_inds out_len init_len s
        /\ (forall msg code, fst (call s) <> Raised msg code)
        /\ (valid_call (waveform s) interp_array t interval_inds nmodes out_len init_len
            = true -> fst (call s) = Done tt)).
Proof.
  intros call. subst call. unfold get_waveform, MAX_SPLINE_POINTS. split.
  - intros Hbig. replace (init_len >? 160)%Z with true by (symmetry; lia).
    reflexivity.
  - intros Hsmall. replace (init_len >? 160)%Z with false by (symmetry; lia).
    split; [reflexivity |]. split; [apply quietM_make_waveform |].
    intros Hvalid. now rewrite (make_waveform_run _ _ _ _ _ _ _ _ _ _ _ _ _ _ _ _ _ Hvalid).
Qed.

(** *** Bessel orders and antenna modes *)

(** C6: for a harmonic index [n >= 1] the kernel takes the five Bessel values
    at n e of the orders n-2, n-1, n, n+1, n+2, the first one through the
    identity J_{-1} = -J_1 when n = 1: then it is -J1(e).  The code writes
    that value as -1.0 * J1(1 * e); the two laws say what these products
    are, for doubles as for reals. *)
Theorem bessel5_orders
    (mul_one : forall x : D, of_int 1 * x = x)
    (mul_minus_one : forall x : D, of_int (-1) * x = - x)
    (n : Z) (e : D) :
  (1 <= n)%Z ->
  bessel5 n e
  = (J_order (n - 2) (of_int n * e), bessel_Jn (n - 1) (of_int n * e),
     bessel_Jn n (of_int n * e), bessel_Jn (n + 1) (of_int n * e),
     bessel_Jn (n + 2) (of_int n * e))
  /\ (n = 1%Z ->
        bessel5 n e
        = (- bessel_J1 e, bessel_Jn 0 e, bessel_Jn 1 e, bessel_Jn 2 e, bessel_Jn 3 e))
  /\ ((2 <= n)%Z ->
        bessel5 n e
        = (bessel_Jn (n - 2) (of_int n * e), bessel_Jn (n - 1) (of_int n * e),
           bessel_Jn n (of_int n * e), bessel_Jn (n + 1) (of_int n * e),
           bessel_Jn (n + 2) (of_int n * e))).
Proof.
  intros Hn. unfold bessel5, J_order. split; [| split].
  - destruct (n =? 1)%Z eqn:H1.
    + apply Z.eqb_eq in H1. subst n. cbn. now rewrite mul_minus_one.
    + apply Z.eqb_neq in H1.
      replace (n - 2 =? -1)%Z with false by (symmetry; apply Z.eqb_neq; lia).
      reflexivity.
  - intros ->. cbn. now rewrite mul_one, mul_minus_one.
  - intros H2. replace (n =? 1)%Z with false by (symmetry; apply Z.eqb_neq; lia).
    reflexivity.
Qed.

End KernelFacts.

(** ** The fixed-antenna projection on binary64 *)

Section AntennaBinary64.

Lemma Prim2SF_one : Prim2SF 1%float = S754_finite false 4503599627370496 (-52).
Proof. vm_compute. reflexivity. Qed.

Lemma digits2_shift52 (m : positive) :
  Zpos (digits2_pos (4503599627370496 * m)) = Zpos (digits2_pos m) + 52.
Proof. cbn [Pos.mul digits2_pos]. rewrite !Pos2Z.inj_succ. lia. Qed.

(** The product of 1.0 and a double's mantissa is 52 bits too long; the
    rounding shifts them out again, and they are all zero. *)
Lemma SF64mul_one (x : spec_float) :
  valid_binary x = true ->
  SF64mul (S754_finite false 4503599627370496 (-52)) x = x.
Proof.
  destruct x as [s | s | | s m e]; intros Hv; try reflexivity.
  cbn [SpecFloat.valid_binary] in Hv. unfold bounded, canonical_mantissa in Hv.
  apply andb_true_iff in Hv. destruct Hv as [Hc He].
  apply Z.eqb_eq in Hc.
  unfold SF64mul, SFmul, binary_round_aux, shr_fexp.
  cbn [xorb Zdigits2 shr_record_of_loc].
  rewrite digits2_shift52.
  replace (Z.pos (digits2_pos m) + 52 + (-52 + e)) with (Z.pos (digits2_pos m) + e) by lia.
  rewrite Hc.
  replace (e - (-52 + e)) with 52 by lia.
  cbn [shr SpecFloat.iter_pos shr_1 Pos.mul orb shr_m shr_r shr_s loc_of_shr_record
       round_nearest_even Zdigits2 shr_record_of_loc fst snd].
  replace (-52 + e + 52) with e by lia.
  rewrite Hc, Z.sub_diag. cbn [shr shr_m]. now rewrite He.
Qed.

(** [1.0 * x] is [x], for every double. *)
Lemma binary64_mul_1_l (x : float) : (1 * x)%float = x.
Proof.
  apply Prim2SF_inj. rewrite mul_spec, Prim2SF_one.
  apply SF64mul_one, Prim2SF_valid.
Qed.

(** A finite double is a zero or has a mantissa. *)
Lemma binary64_finite_cases (x : float) :
  is_finite x = true ->
  (exists s, Prim2SF x = S754_zero s) \/ (exists s m e, Prim2SF x = S754_finite s m e).
Proof.
  unfold is_finite, is_nan, is_infinity. rewrite !eqb_spec, abs_spec.
  destruct (Prim2SF x) as [s | s | | s m e]; intros H.
  - left. now exists s.
  - exfalso. rewrite orb_true_r in H. discriminate.
  - discriminate.
  - right. now exists s, m, e.
Qed.

Lemma binary64_is_zero (x : float) (s : bool) :
  Prim2SF x = S754_zero s -> is_zero x = true.
Proof. intros H. unfold is_zero. rewrite eqb_spec, H. reflexivity. Qed.

(** [0.0 * y] is a zero, for a finite [y]. *)
Lemma binary64_mul_0_l (y : float) :
  is_finite y = true -> exists s, Prim2SF (0 * y)%float = S754_zero s.
Proof.
  intros Hy. rewrite mul_spec.
  destruct (binary64_finite_cases y Hy) as [[s ->] | [s [m [e ->]]]];
    exists s; reflexivity.
Qed.

(** Adding a zero to a finite double gives the double, up to the sign of
    a zero. *)
Lemma binary64_add_zero_r (x z : float) (s : bool) :
  is_finite x = true -> Prim2SF z = S754_zero s ->
  ((x + z)%float =? x)%float = true /\ (is_zero x = false -> (x + z)%float = x).
Proof.
  intros Hx Hz.
  destruct (binary64_finite_cases x Hx) as [[sx Hsx] | [sx [m [e Hsx]]]].
  - split.
    + rewrite eqb_spec, add_spec, Hsx, Hz. now destruct sx, s.
    + intros Hnz. rewrite (binary64_is_zero x sx Hsx) in Hnz. discriminate.
  - assert (E : (x + z)%float = x).
    { apply Prim2SF_inj. rewrite add_spec, Hsx, Hz. reflexivity. }
    rewrite E. split; [| reflexivity].
    rewrite eqb_spec, Hsx. unfold SFeqb, SFcompare.
    rewrite Z.compare_refl, Pos.compare_cont_refl. now destruct sx.
Qed.

Lemma binary64_add_zero_l (x z : float) (s : bool) :
  is_finite x = true -> Prim2SF z = S754_zero s ->
  ((z + x)%float =? x)%float = true /\ (is_zero x = false -> (z + x)%float = x).
Proof.
  intros Hx Hz.
  destruct (binary64_finite_cases x Hx) as [[sx Hsx] | [sx [m [e Hsx]]]].
  - split.
    + rewrite eqb_spec, add_spec, Hsx, Hz. now destruct sx, s.
    + intros Hnz. rewrite (binary64_is_zero x sx Hsx) in Hnz. discriminate.
  - assert (E : (z + x)%float = x).
    { apply Prim2SF_inj. rewrite add_spec, Hsx, Hz. reflexivity. }
    rewrite E. split; [| reflexivity].
    rewrite eqb_spec, Hsx. unfold SFeqb, SFcompare.
    rewrite Z.compare_refl, Pos.compare_cont_refl. now destruct sx.
Qed.

End AntennaBinary64.

(** C7: in fixed-antenna mode the response pairs are (1, 0) and (0, 1), on
    every arithmetic, and the channel contributions are the code's
    1.0 * Aplus + 0.0 * Acros and 0.0 * Aplus + 1.0 * Acros; in
    Doppler-modulated mode they are the projection through the pairs times
    halfsqrt3 = sqrt(3)/2.  On binary64, for finite amplitudes, the
    fixed-mode contributions are hnI = Aplus and hnII = Acros: equal as
    doubles ([==]), and the same double whenever the amplitude is not a
    zero (the sum with the zero product can change the sign of a zero).  In
    exact arithmetic they are Aplus and Acros. *)
Theorem antenna_modes :
  (forall (D : Type) (AD : Arith D) (LD : Libm D) (CD : Consts D)
          (mu qS qK phiS phiK dist t Aplus Acros : D) (F : antenna D),
     let g := unroll mu qS qK phiK dist in
     antenna_pattern g false phiS phiK t
     = mk_antenna (of_int 1) (of_int 0) (of_int 0) (of_int 1)
     /\ project g false (antenna_pattern g false phiS phiK t) (Aplus, Acros)
        = (of_int 1 * Aplus + of_int 0 * Acros, of_int 0 * Aplus + of_int 1 * Acros)%dbl
     /\ project g true F (Aplus, Acros)
        = (halfsqrt3 g * fst (project g false F (Aplus, Acros)),
           halfsqrt3 g * snd (project g false F (Aplus, Acros)))%dbl
     /\ halfsqrt3 g = (dsqrt (of_int 3) / of_int 2)%dbl)
  /\ (forall (g : geometry float) (Aplus Acros : float),
        is_finite Aplus = true -> is_finite Acros = true ->
        let hn := project g false (mk_antenna (of_int 1) (of_int 0) (of_int 0) (of_int 1))
                          (Aplus, Acros) in
        (PrimFloat.eqb (fst hn) Aplus = true /\ PrimFloat.eqb (snd hn) Acros = true)
        /\ (is_zero Aplus = false -> fst hn = Aplus)
        /\ (is_zero Acros = false -> snd hn = Acros))
  /\ (forall (g : geometry R) (Aplus Acros : R),
        project g false (mk_antenna (of_int 1) (of_int 0) (of_int 0) (of_int 1))
                (Aplus, Acros)
        = (Aplus, Acros)).
Proof.
  split; [| split].
  - intros D AD LD CD mu qS qK phiS phiK dist t Aplus Acros F g. repeat split.
  - intros g Aplus Acros Hp Hc hn. subst hn.
    cbn [project FplusI FcrosI FplusII FcrosII fst snd dadd dmul of_int Binary64.arith].
    change (Binary64.of_Z 1) with 1%float. change (Binary64.of_Z 0) with 0%float.
    rewrite !binary64_mul_1_l.
    destruct (binary64_mul_0_l Acros Hc) as [sc Hsc].
    destruct (binary64_mul_0_l Aplus Hp) as [sp Hsp].
    destruct (binary64_add_zero_r Aplus _ sc Hp Hsc) as [H1 H2].
    destruct (binary64_add_zero_l Acros _ sp Hc Hsp) as [H3 H4].
    now repeat split.
  - intros g Aplus Acros.
    cbn [project FplusI FcrosI FplusII FcrosII dadd dmul of_int Exact.arith].
    f_equal; ring.
Qed.


(** ** The properties at the example call *)

Lemma get_waveform_guard_witness :
  (get_waveform Example.interp160 1 1 1 1 1 1 1 1 2 false 161 2 1 Example.knots160
                Example.seg_map Example.buffer
   = (Raised "Initial length is greater than the number of maximum allowable spline points: 161 > 160"
             23, Example.buffer)
   /\ fst (get_waveform Example.interp160 1 1 1 1 1 1 1 1 2 false 160 2 1 Example.knots160
                        Example.seg_map Example.buffer) = Done tt)%R.
Proof.
  split.
  - exact (proj1 (get_waveform_guard Example.interp160 1 1 1 1 1 1 1 1 2 false 161 2 1
                    Example.knots160 Example.seg_map Example.buffer)%R ltac:(lia)).
  - apply (proj2 (get_waveform_guard Example.interp160 1 1 1 1 1 1 1 1 2 false 160 2 1
                    Example.knots160 Example.seg_map Example.buffer)%R ltac:(lia)).
    reflexivity.
Defined.

Lemma eval_splines_cubic_witness :
  (exists p : spline_pars R,
     eval_splines (staged (NUM_PARS * 4 * MAX_SPLINE_POINTS) (4 * NUM_PARS * 1) Example.interp)
                  (staged MAX_SPLINE_POINTS 1 Example.knots) Example.seg_map 1 1 1
     = Done p
     /\ [e_ p; Phi_ p; gim_ p; alp_ p; nu_ p; gimdot_ p; OmegaPhi_ p; lam_ p]
        = map (spline_value Example.interp 1 0 (1 * 1 - 0)) [0; 1; 2; 3; 4; 5; 6; 7]%Z)%R.
Proof.
  destruct (eval_splines_cubic Example.interp Example.knots Example.seg_map 1 1%R 1 0)
    as [_ [_ [p [Hp [_ Hl]]]]].
  - unfold MAX_SPLINE_POINTS. lia.
  - apply Z.leb_le. reflexivity.
  - apply Z.leb_le. reflexivity.
  - reflexivity.
  - lia.
  - exists p. split; [exact Hp | exact Hl].
Defined.

Lemma bessel5_orders_witness :
  (bessel5 1 (1 / 2)
   = (- bessel_J1 (1 / 2), bessel_Jn 0 (1 / 2), bessel_Jn 1 (1 / 2), bessel_Jn 2 (1 / 2),
      bessel_Jn 3 (1 / 2)))%R.
Proof.
  apply (bessel5_orders (AD := Exact.arith) (LD := Exact.libm) Rmult_1_l) with (n := 1%Z).
  - intros x. cbn. ring.
  - lia.
  - reflexivity.
Defined.

Lemma antenna_modes_witness :
  (let hn := project (mk_geometry 0 0 0 0 0 0 0 0 0 0.5 0) false
                     (mk_antenna (of_int 1) (of_int 0) (of_int 0) (of_int 1)) (3, -4) in
   fst hn = 3 /\ snd hn = -4)%float.
Proof.
  destruct (proj1 (proj2 antenna_modes) (mk_geometry 0 0 0 0 0 0 0 0 0 0.5 0)%float
              3%float (-4)%float eq_refl eq_refl) as [_ [H1 H2]].
  split; [apply H1 | apply H2]; reflexivity.
Defined.

Lemma make_waveform_stores_witness :
  (let r := make_waveform Example.interp 1 1 1 1 1 1 1 1 2 false 1 Example.knots
                          Example.seg_map 2 1 Example.buffer in
   fst r = Done tt /\ List.length (stores_to 1 (stores (snd r))) = 2%nat)%R.
Proof.
  pose proof (make_waveform_stores Example.interp 1 1 1 1 1 1 1 1 2 false 1 Example.knots
                Example.seg_map 2 1 Example.buffer eq_refl)%R as [Hdone [Hcells _]].
  split; [exact Hdone |].
  destruct (Hcells 1%Z ltac:(lia)) as [h [_ [Hst _]]].
  rewrite Hst. reflexivity.
Defined.

Lemma make_waveform_no_modes_witness :
  (let r := make_waveform Example.interp 1 1 1 1 1 1 1 1 0 false 1 Example.knots
                          Example.seg_map 2 1 Example.buffer in
   fst r = Done tt
   /\ nth_error (waveform (snd r)) 1 = Some (mk_cmplx (of_int 0) (dneg (of_int 0))))%R.
Proof.
  pose proof (make_waveform_no_modes Example.interp 1 1 1 1 1 1 1 1 0 false 1 Example.knots
                Example.seg_map 2 1 Example.buffer eq_refl ltac:(lia))%R
    as [Hdone [_ Hcells]].
  split; [exact Hdone | exact (proj1 (Hcells 1%Z ltac:(lia)))].
Defined.

(** C8 as stated fails: the example call stores twice to cell 0, not once. *)
Lemma make_waveform_stores_twice :
  (let r := make_waveform Example.interp 1 1 1 1 1 1 1 1 2 false 1 Example.knots
                          Example.seg_map 2 1 Example.buffer in
   fst r = Done tt
   /\ List.length (stores_to 0 (stores (snd r))) = 2%nat
   /\ List.length (stores_to 0 (stores (snd r))) <> 1%nat)%R.
Proof.
  intros r.
  assert (Hrun : r = (Done tt, _))
    by exact (make_waveform_run Example.interp 1 1 1 1 1 1 1 1 2 false 1 Example.knots
                Example.seg_map 2 1 Example.buffer eq_refl)%R.
  rewrite Hrun. clear Hrun r.
  cbn [fst snd stores]. split; [reflexivity |].
  rewrite stores_to_app, stores_to_trace_range. cbn. split; [reflexivity | discriminate].
Qed.

(** At binary64 the complex number of C9 is (0.0, -0.0), the sign included. *)
Lemma binary64_zero_sample :
  mk_cmplx (of_int 0) (dneg (of_int 0)) = mk_cmplx 0%float (-0)%float.
Proof. reflexivity. Qed.

(** ** The spline-segment locator *)

Section LocatorFacts.

Context {D : Type} {AD : Arith D}.

Variables (t_arr : list D) (delta_t : D) (new_length : Z).

Hypothesis new_length_int : (0 <= new_length <= INT_MAX)%Z.

Local Abbreviation T := (window_end delta_t new_length).
Local Abbreviation sidx := (start_index t_arr delta_t new_length).

Lemma int_result_done (z : Z) :
  (INT_MIN <= z <= INT_MAX)%Z -> int_result z = Done z.
Proof.
  intros Hz. unfold int_result, in_int.
  replace ((INT_MIN <=? z)%Z && (z <=? INT_MAX)%Z) with true; [reflexivity |].
  symmetry. apply andb_true_iff. split; apply Z.leb_le; lia.
Qed.

Lemma inside_inv (i : nat) :
  inside t_arr delta_t new_length i = true ->
  exists t z, nth_error t_arr i = Some t /\ dltb t T = true
              /\ to_int (dceil (ddiv t delta_t)) = Some z /\ (0 <= z <= INT_MAX)%Z
              /\ (1 <= i -> sidx i = z)%nat.
Proof.
  unfold inside, start_index, knot_index.
  destruct (nth_error t_arr i) as [t |]; [| discriminate].
  destruct (dltb t T) eqn:Hlt; [| discriminate]. cbn [andb].
  destruct (to_int (dceil (ddiv t delta_t))) as [z |] eqn:Hcast; [| discriminate].
  destruct ((0 <=? z)%Z && (z <=? INT_MAX)%Z) eqn:Hz; [| discriminate].
  intros _. apply andb_true_iff in Hz. destruct Hz as [H0 H1].
  apply Z.leb_le in H0, H1.
  exists t, z. split; [reflexivity |]. split; [exact Hlt |].
  split; [exact Hcast |]. split; [lia |].
  intros Hi. destruct i; [lia | reflexivity].
Qed.

Lemma outside_inv (i : nat) :
  outside t_arr delta_t new_length i = true ->
  exists t, nth_error t_arr i = Some t /\ dltb t T = false
            /\ (1 <= i -> sidx i = new_length)%nat.
Proof.
  unfold outside, start_index.
  destruct (nth_error t_arr i) as [t |]; [| discriminate].
  destruct (dltb t T) eqn:Hlt; [discriminate |].
  intros _. exists t. split; [reflexivity |]. split; [exact Hlt |].
  intros Hi. destruct i; [lia | reflexivity].
Qed.

Local Abbreviation located_upto := (located_upto t_arr delta_t new_length).

Lemma located_step (si ul : list Z) (i : nat) :
  located_upto si ul i -> (1 <= i)%nat ->
  (i < List.length si)%nat -> (i <= List.length ul)%nat ->
  located_upto (upd si i (sidx i)) (upd ul (i - 1) (sidx i - sidx (i - 1))%Z) (S i).
Proof.
  intros [Hsi Hul] Hi Hlsi Hlul. split; intros j Hj.
  - destruct (Nat.eq_dec j i) as [-> | Hne].
    + now apply nth_error_upd_same.
    + rewrite nth_error_upd_other by congruence. apply Hsi. lia.
  - destruct (Nat.eq_dec j (i - 1)) as [-> | Hne].
    + rewrite nth_error_upd_same by lia. now replace (S (i - 1)) with i by lia.
    + rewrite nth_error_upd_other by congruence. apply Hul. lia.
Qed.

(** One iteration on a knot inside the window. *)
Lemma locate_step_inside (fuel i : nat) (si ul : list Z) :
  (1 <= i)%nat -> (i < List.length si)%nat -> (i <= List.length ul)%nat ->
  inside t_arr delta_t new_length i = true ->
  nth_error si (i - 1) = Some (sidx (i - 1)) ->
  (0 <= sidx (i - 1) <= INT_MAX)%Z ->
  locate_loop t_arr delta_t T new_length (S fuel) (Z.of_nat i) si ul
  = locate_loop t_arr delta_t T new_length fuel (Z.of_nat (S i))
                (upd si i (sidx i)) (upd ul (i - 1) (sidx i - sidx (i - 1))%Z)
  /\ (0 <= sidx i <= INT_MAX)%Z.
Proof.
  intros Hi Hlsi Hlul Hin Hprev Hprange.
  destruct (inside_inv i Hin) as [t [z [Ht [Hlt [Hz [Hzr Hsz]]]]]].
  rewrite (Hsz Hi). split; [| exact Hzr].
  cbn [locate_loop].
  rewrite (rd_some _ _ _ Ht). cbn [obind]. rewrite Hlt.
  unfold cast_int. rewrite Hz.
  rewrite int_result_done by (unfold INT_MIN, INT_MAX in *; lia). cbn [obind].
  rewrite wr_done by exact Hlsi. cbn [obind].
  rewrite (rd_some _ i z) by now apply nth_error_upd_same. cbn [obind].
  replace (Z.of_nat i - 1)%Z with (Z.of_nat (i - 1)) by lia.
  rewrite (rd_some _ (i - 1) (sidx (i - 1)))
    by (rewrite nth_error_upd_other by lia; exact Hprev).
  cbn [obind].
  rewrite int_result_done by (unfold INT_MIN, INT_MAX in *; lia). cbn [obind].
  rewrite wr_done by lia. cbn [obind].
  now replace (Z.of_nat i + 1)%Z with (Z.of_nat (S i)) by lia.
Qed.

(** The iteration on a knot outside the window: the [break]. *)
Lemma locate_step_outside (fuel i : nat) (si ul : list Z) :
  (1 <= i)%nat -> (i < List.length si)%nat -> (i <= List.length ul)%nat ->
  outside t_arr delta_t new_length i = true ->
  nth_error si (i - 1) = Some (sidx (i - 1)) ->
  (0 <= sidx (i - 1) <= INT_MAX)%Z ->
  locate_loop t_arr delta_t T new_length (S fuel) (Z.of_nat i) si ul
  = Done (Z.of_nat i, upd si i (sidx i), upd ul (i - 1) (sidx i - sidx (i - 1))%Z)
  /\ sidx i = new_length.
Proof.
  intros Hi Hlsi Hlul Hout Hprev Hprange.
  destruct (outside_inv i Hout) as [t [Ht [Hlt Hsz]]].
  rewrite (Hsz Hi). split; [| reflexivity].
  cbn [locate_loop].
  rewrite (rd_some _ _ _ Ht). cbn [obind]. rewrite Hlt.
  rewrite wr_done by exact Hlsi. cbn [obind].
  replace (Z.of_nat i - 1)%Z with (Z.of_nat (i - 1)) by lia.
  rewrite (rd_some _ (i - 1) (sidx (i - 1)))
    by (rewrite nth_error_upd_other by lia; exact Hprev).
  cbn [obind].
  rewrite int_result_done by (unfold INT_MIN, INT_MAX in *; lia). cbn [obind].
  rewrite wr_done by lia. reflexivity.
Qed.

(** A run of [fuel] iterations on knots inside the window. *)
Lemma locate_loop_inside_run (rest fuel i : nat) (si ul : list Z) :
  (1 <= i)%nat -> (i + fuel <= List.length si)%nat -> (i + fuel <= S (List.length ul))%nat ->
  (forall j, (i <= j < i + fuel)%nat -> inside t_arr delta_t new_length j = true) ->
  located_upto si ul i ->
  (0 <= sidx (i - 1) <= INT_MAX)%Z ->
  exists si' ul',
    List.length si' = List.length si /\ List.length ul' = List.length ul
    /\ located_upto si' ul' (i + fuel)
    /\ (0 <= sidx (i + fuel - 1) <= INT_MAX)%Z
    /\ locate_loop t_arr delta_t T new_length (fuel + rest) (Z.of_nat i) si ul
       = locate_loop t_arr delta_t T new_length rest (Z.of_nat (i + fuel)) si' ul'.
Proof.
  revert i si ul. induction fuel as [| k IH]; intros i si ul Hi Hlsi Hlul Hin Hinv Hprev.
  - exists si, ul. rewrite Nat.add_0_r.
    split; [reflexivity |]. split; [reflexivity |]. split; [exact Hinv |].
    split; [exact Hprev | reflexivity].
  - pose proof (locate_step_inside (k + rest) i si ul Hi ltac:(lia) ltac:(lia)
                  (Hin i ltac:(lia)) (proj1 Hinv (i - 1)%nat ltac:(lia)) Hprev)
      as [Hstep Hrange].
    destruct (IH (S i) (upd si i (sidx i)) (upd ul (i - 1) (sidx i - sidx (i - 1))%Z))
      as [si' [ul' [Hl1 [Hl2 [Hinv' [Hr' Hrun]]]]]].
    + lia.
    + rewrite length_upd. lia.
    + rewrite length_upd. lia.
    + intros j Hj. apply Hin. lia.
    + apply located_step; try assumption; lia.
    + now replace (S i - 1)%nat with i by lia.
    + exists si', ul'. rewrite length_upd in Hl1, Hl2.
      replace (i + S k)%nat with (S i + k)%nat by lia.
      split; [exact Hl1 |]. split; [exact Hl2 |]. split; [exact Hinv' |].
      split; [exact Hr' |].
      cbn [Nat.add]. rewrite Hstep. exact Hrun.
Qed.

(** The segment lengths telescope. *)
Lemma sumZ_app (a b : list Z) : sumZ (a ++ b) = (sumZ a + sumZ b)%Z.
Proof.
  unfold sumZ. induction a as [| x a IH]; cbn [app fold_right]; [reflexivity |].
  rewrite IH. lia.
Qed.

Lemma located_sum (si ul : list Z) (n m : nat) :
  located_upto si ul n -> (S m <= n)%nat ->
  sumZ (firstn m ul) = (sidx m - sidx 0)%Z.
Proof.
  intros [_ Hul]. induction m as [| m IH]; intros Hm.
  - cbn. lia.
  - rewrite (firstn_succ ul m _ (Hul m ltac:(lia))).
    rewrite sumZ_app, IH by lia. cbn. lia.
Qed.

(** The call when no knot is outside the window. *)
Lemma find_start_inds_complete (si ul : list Z) (length : Z) :
  locator_buffers si ul t_arr length new_length = true ->
  (1 <= length)%Z ->
  no_truncation t_arr delta_t new_length length = true ->
  exists r,
    find_start_inds si ul t_arr delta_t length new_length = Done r
    /\ exit_index r = length /\ length_out r = (length + 1)%Z
    /\ located_upto (start_inds r) (unit_length r) (Z.to_nat length).
Proof.
  unfold locator_buffers, no_truncation. rewrite !andb_true_iff, forallb_forall.
  intros [[[[[[Hsi1 Hsi] Hul] Ht] Hmax] Hn0] Hn1] Hlen Hin.
  apply Z.leb_le in Hsi1, Hsi, Hul, Ht, Hn0, Hn1. apply Z.ltb_lt in Hmax.
  unfold find_start_inds.
  rewrite int_result_done by (unfold INT_MIN, INT_MAX in *; lia). cbn [obind].
  replace (wr si 0 0%Z) with (Done (upd si 0 0%Z))
    by (symmetry; apply (wr_done si 0 0%Z); lia).
  cbn [obind].
  destruct (locate_loop_inside_run 0 (Z.to_nat (length - 1)) 1 (upd si 0 0%Z) ul)
    as [si' [ul' [Hl1 [Hl2 [Hinv [_ Hrun]]]]]].
  - lia.
  - rewrite length_upd. lia.
  - lia.
  - intros j Hj. apply Hin, in_seq. lia.
  - split; intros j Hj; [| lia].
    replace j with 0%nat by lia. apply nth_error_upd_same. lia.
  - cbn. unfold INT_MAX. lia.
  - rewrite Nat.add_0_r in Hrun.
    change (Z.of_nat 1) with 1%Z in Hrun. unfold window_end in Hrun.
    rewrite Hrun. cbn [locate_loop obind].
    rewrite int_result_done by (unfold INT_MIN, INT_MAX in *; lia). cbn [obind].
    eexists. split; [reflexivity |]. cbn [exit_index length_out start_inds unit_length].
    split; [lia |]. split; [lia |].
    now replace (Z.to_nat length) with (1 + Z.to_nat (length - 1))%nat by lia.
Qed.

(** The call when knot [k] is the first one outside the window. *)
Lemma find_start_inds_truncated (si ul : list Z) (length k : Z) :
  locator_buffers si ul t_arr length new_length = true ->
  truncated_at t_arr delta_t new_length length k = true ->
  exists r,
    find_start_inds si ul t_arr delta_t length new_length = Done r
    /\ exit_index r = k /\ length_out r = (k + 1)%Z
    /\ located_upto (start_inds r) (unit_length r) (S (Z.to_nat k))
    /\ sidx (Z.to_nat k) = new_length.
Proof.
  unfold locator_buffers, truncated_at. rewrite !andb_true_iff, forallb_forall.
  intros [[[[[[Hsi1 Hsi] Hul] Ht] Hmax] Hn0] Hn1] [[[Hk1 Hk] Hin] Hout].
  apply Z.leb_le in Hsi1, Hsi, Hul, Ht, Hn0, Hn1, Hk1. apply Z.ltb_lt in Hmax, Hk.
  unfold find_start_inds.
  rewrite int_result_done by (unfold INT_MIN, INT_MAX in *; lia). cbn [obind].
  replace (wr si 0 0%Z) with (Done (upd si 0 0%Z))
    by (symmetry; apply (wr_done si 0 0%Z); lia).
  cbn [obind].
  destruct (locate_loop_inside_run (S (Z.to_nat (length - 1 - k))) (Z.to_nat k - 1) 1
              (upd si 0 0%Z) ul)
    as [si' [ul' [Hl1 [Hl2 [Hinv [Hprev Hrun]]]]]].
  - lia.
  - rewrite length_upd. lia.
  - lia.
  - intros j Hj. apply Hin, in_seq. lia.
  - split; intros j Hj; [| lia].
    replace j with 0%nat by lia. apply nth_error_upd_same. lia.
  - cbn. unfold INT_MAX. lia.
  - replace (Z.to_nat (length - 1))
      with (Z.to_nat k - 1 + S (Z.to_nat (length - 1 - k)))%nat by lia.
    change (Z.of_nat 1) with 1%Z in Hrun. unfold window_end in Hrun.
    rewrite Hrun. fold (window_end delta_t new_length).
    rewrite length_upd in Hl1.
    replace (1 + (Z.to_nat k - 1))%nat with (Z.to_nat k) in * by lia.
    pose proof (locate_step_outside (Z.to_nat (length - 1 - k)) (Z.to_nat k) si' ul'
                  ltac:(lia) ltac:(lia) ltac:(lia) Hout
                  (proj1 Hinv (Z.to_nat k - 1)%nat ltac:(lia)) Hprev)
      as [Hstep Hidx].
    rewrite Hstep. cbn [obind].
    rewrite int_result_done by (unfold INT_MIN, INT_MAX in *; lia). cbn [obind].
    eexists. split; [reflexivity |]. cbn [exit_index length_out start_inds unit_length].
    split; [lia |]. split; [lia |]. split; [| exact Hidx].
    apply located_step; try assumption; lia.
Qed.


End LocatorFacts.

Section LocatorTheorems.

Context {D : Type} {AD : Arith D}.

Variables (t_arr : list D) (delta_t : D) (new_length : Z).

Lemma obind_done {A B : Type} (o : outcome A) (k : A -> outcome B) (b : B) :
  obind o k = Done b -> exists a, o = Done a /\ k a = Done b.
Proof.
  destruct o as [a | msg code |]; cbn; intros H; try discriminate. now exists a.
Qed.

Lemma wr_inv {A : Type} (a a' : list A) (i : Z) (v : A) :
  wr a i v = Done a' ->
  a' = upd a (Z.to_nat i) v /\ (0 <= i < Z.of_nat (List.length a))%Z.
Proof.
  unfold wr. destruct ((0 <=? i)%Z && (i <? Z.of_nat (List.length a))%Z) eqn:Hi;
    intros H; [| discriminate].
  apply andb_true_iff in Hi. destruct Hi as [H0 H1].
  apply Z.leb_le in H0. apply Z.ltb_lt in H1.
  inversion H. split; [reflexivity | lia].
Qed.

Ltac open_bind H :=
  let a := fresh "a" in
  let E := fresh "E" in
  apply obind_done in H; destruct H as [a [E H]].

(** The loop starts at index 1 and never goes back to [start_inds[0]]. *)
Lemma locate_loop_keeps_first (T : D) (fuel : nat) (i : Z) (si ul : list Z)
    (e : Z) (si' ul' : list Z) :
  (1 <= i)%Z ->
  locate_loop t_arr delta_t T new_length fuel i si ul = Done (e, si', ul') ->
  nth_error si' 0 = nth_error si 0.
Proof.
  revert i si ul. induction fuel as [| k IH]; intros i si ul Hi H.
  - cbn in H. now inversion H.
  - cbn [locate_loop] in H. open_bind H.
    destruct (dltb a T).
    + do 6 open_bind H.
      apply IH in H; [| lia]. rewrite H.
      apply wr_inv in E1. destruct E1 as [-> _].
      apply nth_error_upd_other. lia.
    + do 4 open_bind H. inversion H. subst.
      apply wr_inv in E0. destruct E0 as [-> _].
      apply nth_error_upd_other. lia.
Qed.

(** Whatever the knot times, a call that returns has set [start_inds[0]]
    to 0 and [*length] to the loop index at the exit plus one. *)
Lemma find_start_inds_always (si ul : list Z) (length : Z) (r : located) :
  find_start_inds si ul t_arr delta_t length new_length = Done r ->
  nth_error (start_inds r) 0 = Some 0%Z /\ length_out r = (exit_index r + 1)%Z.
Proof.
  unfold find_start_inds. intros H. do 3 open_bind H.
  destruct a1 as [[i si'] ul']. open_bind H. inversion H. subst r.
  cbn [start_inds length_out exit_index].
  unfold int_result in E2. destruct (in_int (i + 1)); [| discriminate].
  inversion E2. split; [| reflexivity].
  rewrite (locate_loop_keeps_first _ _ 1%Z _ _ _ _ _ ltac:(lia) E1).
  apply wr_inv in E0. destruct E0 as [-> Hlen].
  apply nth_error_upd_same. cbn [Z.to_nat]. lia.
Qed.

Lemma locator_buffers_new_length (si ul : list Z) (length : Z) :
  locator_buffers si ul t_arr length new_length = true ->
  (0 <= new_length <= INT_MAX)%Z.
Proof.
  unfold locator_buffers. rewrite !andb_true_iff.
  intros [[_ Hn0] Hn1]. apply Z.leb_le in Hn0, Hn1. lia.
Qed.

(** When no knot from index [i] on is at or beyond the end of the window no
    iteration breaks: a loop that returns has run all its iterations. *)
Lemma locate_loop_completes (fuel i : nat) (si ul : list Z) (e : Z) (si' ul' : list Z) :
  (forall j, (i <= j < i + fuel)%nat -> below_end t_arr delta_t new_length j = true) ->
  locate_loop t_arr delta_t (window_end delta_t new_length) new_length fuel (Z.of_nat i)
              si ul = Done (e, si', ul') ->
  e = Z.of_nat (i + fuel).
Proof.
  revert i si ul. induction fuel as [| k IH]; intros i si ul Hall H.
  - cbn in H. inversion H. lia.
  - cbn [locate_loop] in H. open_bind H.
    pose proof (Hall i ltac:(lia)) as Hb. unfold below_end in Hb.
    unfold rd in E. destruct (Z.of_nat i <? 0)%Z; [discriminate |].
    rewrite Nat2Z.id in E.
    destruct (nth_error t_arr i) as [t |]; [| discriminate].
    inversion E. subst a. rewrite Hb in H. do 6 open_bind H.
    replace (Z.of_nat i + 1)%Z with (Z.of_nat (S i)) in H by lia.
    apply IH in H; [lia | intros j Hj; apply Hall; lia].
Qed.

(** A call that returns with every knot from index 1 on below the end of
    the window has left the loop at [i = *length]. *)
Lemma find_start_inds_completes (si ul : list Z) (length : Z) (r : located) :
  (1 <= length)%Z ->
  runs_to_completion t_arr delta_t new_length length = true ->
  find_start_inds si ul t_arr delta_t length new_length = Done r ->
  exit_index r = length.
Proof.
  unfold runs_to_completion. rewrite forallb_forall. intros Hlen Hall H.
  unfold find_start_inds in H. open_bind H.
  unfold int_result in E. destruct (in_int (new_length - 1)); [| discriminate].
  inversion E. subst a. do 2 open_bind H.
  destruct a0 as [[i si'] ul']. open_bind H. inversion H. subst r.
  cbn [exit_index].
  change 1%Z with (Z.of_nat 1) in E1.
  apply locate_loop_completes in E1; [lia |].
  intros j Hj. apply Hall, in_seq. lia.
Qed.

(** A run of iterations that are all defined and below the end of the
    window returns, at the index after the last of them. *)
Lemma locate_loop_defined_run (fuel i : nat) (si ul : list Z) :
  (1 <= i)%nat -> (i + fuel <= List.length si)%nat ->
  (i + fuel <= S (List.length ul))%nat ->
  (forall j, (i <= j < i + fuel)%nat -> step_defined t_arr delta_t new_length j = true) ->
  nth_error si (i - 1) = Some (cast_index t_arr delta_t (i - 1)) ->
  exists si' ul',
    locate_loop t_arr delta_t (window_end delta_t new_length) new_length fuel
                (Z.of_nat i) si ul
    = Done (Z.of_nat (i + fuel), si', ul').
Proof.
  revert i si ul. induction fuel as [| k IH]; intros i si ul Hi Hlsi Hlul Hall Hprev.
  - exists si, ul. cbn [locate_loop]. now rewrite Nat.add_0_r.
  - pose proof (Hall i ltac:(lia)) as Hstep. unfold step_defined, below_end in Hstep.
    destruct (nth_error t_arr i) as [t |] eqn:Ht;
      [| now rewrite andb_false_r in Hstep].
    destruct (to_int (dceil (ddiv t delta_t))) as [z |] eqn:Hz;
      [| now rewrite andb_false_r in Hstep].
    rewrite !andb_true_iff in Hstep. destruct Hstep as [Hlt [Hzi Hdi]].
    assert (Hcur : cast_index t_arr delta_t i = z).
    { unfold cast_index. destruct i; [lia |]. now rewrite Ht, Hz. }
    destruct (IH (S i) (upd si i z)
                 (upd ul (i - 1) (z - cast_index t_arr delta_t (i - 1))%Z))
      as [si' [ul' Hrun]].
    + lia.
    + rewrite length_upd. lia.
    + rewrite length_upd. lia.
    + intros j Hj. apply Hall. lia.
    + replace (S i - 1)%nat with i by lia. rewrite Hcur.
      apply nth_error_upd_same. lia.
    + exists si', ul'. cbn [locate_loop].
      rewrite (rd_some _ _ _ Ht). cbn [obind]. rewrite Hlt.
      unfold cast_int. rewrite Hz. unfold int_result at 1. rewrite Hzi. cbn [obind].
      rewrite wr_done by lia. cbn [obind].
      rewrite (rd_some _ i z) by (apply nth_error_upd_same; lia). cbn [obind].
      replace (Z.of_nat i - 1)%Z with (Z.of_nat (i - 1)) by lia.
      rewrite (rd_some _ (i - 1) (cast_index t_arr delta_t (i - 1)))
        by (rewrite nth_error_upd_other by lia; exact Hprev).
      cbn [obind]. unfold int_result at 1. rewrite Hdi. cbn [obind].
      rewrite wr_done by lia. cbn [obind].
      replace (Z.of_nat i + 1)%Z with (Z.of_nat (S i)) by lia.
      rewrite Hrun. f_equal. f_equal. f_equal. lia.
Qed.

(** The call returns when the buffers are valid and the loop runs to
    completion with every iteration defined. *)
Lemma find_start_inds_returns (si ul : list Z) (length : Z) :
  locator_buffers si ul t_arr length new_length = true ->
  (1 <= length)%Z ->
  completes_defined t_arr delta_t new_length length = true ->
  exists r,
    find_start_inds si ul t_arr delta_t length new_length = Done r
    /\ exit_index r = length /\ length_out r = (length + 1)%Z.
Proof.
  unfold locator_buffers, completes_defined. rewrite !andb_true_iff, forallb_forall.
  intros [[[[[[Hsi1 Hsi] Hul] Ht] Hmax] Hn0] Hn1] Hlen Hall.
  apply Z.leb_le in Hsi1, Hsi, Hul, Ht, Hn0, Hn1. apply Z.ltb_lt in Hmax.
  unfold find_start_inds.
  rewrite int_result_done by (unfold INT_MIN, INT_MAX in *; lia). cbn [obind].
  replace (wr si 0 0%Z) with (Done (upd si 0 0%Z))
    by (symmetry; apply (wr_done si 0 0%Z); lia).
  cbn [obind].
  destruct (locate_loop_defined_run (Z.to_nat (length - 1)) 1 (upd si 0 0%Z) ul)
    as [si' [ul' Hrun]].
  - lia.
  - rewrite length_upd. lia.
  - lia.
  - intros j Hj. apply Hall, in_seq. lia.
  - cbn [Nat.sub cast_index]. apply nth_error_upd_same. lia.
  - change (Z.of_nat 1) with 1%Z in Hrun. unfold window_end in Hrun.
    rewrite Hrun. cbn [obind].
    rewrite int_result_done by (unfold INT_MIN, INT_MAX in *; lia). cbn [obind].
    eexists. split; [reflexivity |]. cbn [exit_index length_out]. lia.
Qed.

(** With no knot at all the loop body never runs: the index stays 1 and
    the returned length is 2. *)
Lemma find_start_inds_no_knot (start_inds0 unit_length0 : list Z) (length : Z) :
  locator_buffers start_inds0 unit_length0 t_arr length new_length = true ->
  (length < 1)%Z ->
  exists r,
    find_start_inds start_inds0 unit_length0 t_arr delta_t length new_length = Done r
    /\ exit_index r = 1%Z /\ length_out r = 2%Z.
Proof.
  intros Hbuf Hlen. pose proof (locator_buffers_new_length _ _ _ Hbuf) as Hnew.
  unfold locator_buffers in Hbuf. rewrite !andb_true_iff in Hbuf.
  destruct Hbuf as [[[[[[Hsi1 _] _] _] _] _] _]. apply Z.leb_le in Hsi1.
  unfold find_start_inds.
  rewrite int_result_done by (unfold INT_MIN, INT_MAX in *; lia). cbn [obind].
  replace (wr start_inds0 0 0%Z) with (Done (upd start_inds0 0 0%Z))
    by (symmetry; apply (wr_done start_inds0 0 0%Z); lia).
  cbn [obind].
  replace (Z.to_nat (length - 1)) with 0%nat by lia. cbn [locate_loop obind].
  eexists. split; [reflexivity |]. split; reflexivity.
Qed.

(** C10: a call that returns has set [start_inds[0]] to 0, whatever the first
    knot time is, and [*length] to the loop index at the exit plus one.  When
    there is a first knot and every knot time from index 1 on is strictly
    below the end of the output window, no iteration breaks, the loop runs
    to completion and the returned length is the knot count plus one; this
    holds for every call that returns, whatever the start indices are.  And
    the call does return when the buffers are valid and every iteration is
    defined: each cast gives an [int], of either sign, and so does each
    difference of two consecutive start indices. *)
Theorem find_start_inds_length (start_inds0 unit_length0 : list Z) (length : Z) :
  (forall r,
     find_start_inds start_inds0 unit_length0 t_arr delta_t length new_length = Done r ->
     (nth_error (start_inds r) 0 = Some 0%Z /\ length_out r = (exit_index r + 1)%Z)
     /\ ((1 <= length)%Z ->
         runs_to_completion t_arr delta_t new_length length = true ->
         exit_index r = length /\ length_out r = (length + 1)%Z))
  /\ (locator_buffers start_inds0 unit_length0 t_arr length new_length = true ->
      (1 <= length)%Z -> completes_defined t_arr delta_t new_length length = true ->
      exists r,
        find_start_inds start_inds0 unit_length0 t_arr delta_t length new_length = Done r
        /\ exit_index r = length /\ length_out r = (length + 1)%Z).
Proof.
  split.
  - intros r Hr. pose proof (find_start_inds_always _ _ _ _ Hr) as [H0 Hout].
    split; [now split |]. intros Hlen Hall.
    pose proof (find_start_inds_completes _ _ _ _ Hlen Hall Hr) as Hexit.
    split; [exact Hexit | now rewrite Hout, Hexit].
  - apply find_start_inds_returns.
Qed.

End LocatorTheorems.

(** ** The ceiling and its cast in exact arithmetic *)

Section CeilingExact.

Local Open Scope R_scope.

Lemma Int_part_IZR (z : Z) : Int_part (IZR z) = z.
Proof. symmetry. apply Int_part_spec. lra. Qed.

Lemma ceilZ_spec (x : R) : IZR (Exact.ceilZ x) - 1 < x <= IZR (Exact.ceilZ x).
Proof.
  unfold Exact.ceilZ. rewrite opp_IZR.
  destruct (base_Int_part (- x)) as [H1 H2]. lra.
Qed.

Lemma ceilZ_le (x : R) (m : Z) : x <= IZR m -> (Exact.ceilZ x <= m)%Z.
Proof.
  intros Hx. destruct (ceilZ_spec x) as [H1 _].
  assert (Hlt : IZR (Exact.ceilZ x) < IZR (m + 1)) by (rewrite plus_IZR; lra).
  apply lt_IZR in Hlt. lia.
Qed.

Lemma ceilZ_ge (x : R) (m : Z) : IZR m <= x -> (m <= Exact.ceilZ x)%Z.
Proof.
  intros Hx. destruct (ceilZ_spec x) as [_ H2].
  apply le_IZR. lra.
Qed.

Lemma ceilZ_monotone (x y : R) : x <= y -> (Exact.ceilZ x <= Exact.ceilZ y)%Z.
Proof.
  intros Hxy. apply ceilZ_le. destruct (ceilZ_spec y) as [_ H2]. lra.
Qed.

(** The cast of a ceiling is the ceiling, when it is an [int]. *)
Lemma exact_cast_ceil (x : R) :
  in_int (Exact.ceilZ x) = true -> to_int (dceil x) = Some (Exact.ceilZ x).
Proof.
  intros Hint. cbn [to_int dceil Exact.arith]. unfold Exact.int_of.
  assert (Htr : Exact.trunc (IZR (Exact.ceilZ x)) = Exact.ceilZ x).
  { unfold Exact.trunc. destruct (Rle_dec 0 (IZR (Exact.ceilZ x))).
    - apply Int_part_IZR.
    - rewrite <- opp_IZR, Int_part_IZR. lia. }
  cbv zeta. now rewrite Htr, Hint.
Qed.

Lemma exact_trunc_IZR (z : Z) : Exact.trunc (IZR z) = z.
Proof.
  unfold Exact.trunc. destruct (Rle_dec 0 (IZR z)).
  - apply Int_part_IZR.
  - rewrite <- opp_IZR, Int_part_IZR. lia.
Qed.

(** An [int] the cast of a ceiling gives is the ceiling. *)
Lemma exact_cast_inv (x : R) (z : Z) :
  to_int (dceil x) = Some z -> z = Exact.ceilZ x.
Proof.
  cbn [to_int dceil Exact.arith]. unfold Exact.int_of. cbv zeta.
  rewrite exact_trunc_IZR. destruct (in_int (Exact.ceilZ x)); congruence.
Qed.

(** With a positive sample spacing the start index of a knot inside the
    window is the ceiling of its time over the spacing, and it is below the
    output sample count. *)
Lemma exact_inside_bound (t_arr : list R) (delta_t : R) (new_length : Z) (i : nat) :
  0 < delta_t -> (1 <= i)%nat ->
  inside t_arr delta_t new_length i = true ->
  start_index t_arr delta_t new_length i = Exact.ceilZ (nth i t_arr 0 / delta_t)
  /\ (start_index t_arr delta_t new_length i <= new_length - 1)%Z.
Proof.
  intros Hd Hi Hin.
  destruct (inside_inv t_arr delta_t new_length i Hin)
    as [t [z [Ht [Hlt [Hz [_ Hs]]]]]].
  rewrite (Hs Hi). apply exact_cast_inv in Hz.
  change (ddiv t delta_t) with (t / delta_t) in Hz.
  rewrite (nth_error_nth _ _ 0 Ht). split; [exact Hz |]. subst z.
  apply ceilZ_le.
  unfold window_end in Hlt. cbn [dltb dmul of_int Exact.arith] in Hlt.
  unfold Exact.ltb in Hlt.
  destruct (Rlt_dec t (IZR (new_length - 1) * delta_t)) as [Hlt' |]; [| discriminate].
  apply Rmult_le_reg_r with (r := delta_t); [exact Hd |].
  unfold Rdiv. rewrite Rmult_assoc, Rinv_l by lra. lra.
Qed.

End CeilingExact.

(** ** The sum of the segment lengths *)

(** C4, as the code has it.  On every arithmetic, for valid buffers and
    start indices that are non-negative [int]s, the segment lengths the
    locator writes sum to the last start index it writes: when early
    truncation occurs, at knot [k], that index is the output sample count
    and the [k] lengths sum to exactly [new_length]; when no truncation
    occurs it is the start index of the last knot and the [length - 1]
    lengths sum to that.  In exact arithmetic, with a positive sample
    spacing and at least two knots, that start index is the ceiling of the
    last knot time over the spacing and is at most [new_length - 1]: without
    truncation the lengths sum to less than the output sample count. *)
Theorem segment_lengths_sum :
  (forall (D : Type) (AD : Arith D) (t_arr : list D) (delta_t : D) (new_length : Z)
          (start_inds0 unit_length0 : list Z) (length : Z),
     locator_buffers start_inds0 unit_length0 t_arr length new_length = true ->
     (forall k, truncated_at t_arr delta_t new_length length k = true ->
        exists r,
          find_start_inds start_inds0 unit_length0 t_arr delta_t length new_length = Done r
          /\ length_out r = (k + 1)%Z
          /\ nth_error (start_inds r) (Z.to_nat k) = Some new_length
          /\ sumZ (firstn (Z.to_nat k) (unit_length r)) = new_length)
     /\ ((1 <= length)%Z -> no_truncation t_arr delta_t new_length length = true ->
         exists r,
           find_start_inds start_inds0 unit_length0 t_arr delta_t length new_length = Done r
           /\ nth_error (start_inds r) (Z.to_nat (length - 1))
              = Some (start_index t_arr delta_t new_length (Z.to_nat (length - 1)))
           /\ sumZ (firstn (Z.to_nat (length - 1)) (unit_length r))
              = start_index t_arr delta_t new_length (Z.to_nat (length - 1))))
  /\ (forall (t_arr : list R) (delta_t : R) (new_length : Z)
             (start_inds0 unit_length0 : list Z) (length : Z),
        (0 < delta_t)%R ->
        locator_buffers start_inds0 unit_length0 t_arr length new_length = true ->
        (2 <= length)%Z -> no_truncation t_arr delta_t new_length length = true ->
        exists r,
          find_start_inds start_inds0 unit_length0 t_arr delta_t length new_length = Done r
          /\ sumZ (firstn (Z.to_nat (length - 1)) (unit_length r))
             = Exact.ceilZ (nth (Z.to_nat (length - 1)) t_arr 0%R / delta_t)
          /\ (sumZ (firstn (Z.to_nat (length - 1)) (unit_length r)) <= new_length - 1)%Z).
Proof.
  assert (Hnone : forall (D : Type) (AD : Arith D) (t_arr : list D) (delta_t : D)
                         (new_length : Z) (si ul : list Z) (length : Z),
             locator_buffers si ul t_arr length new_length = true ->
             (1 <= length)%Z -> no_truncation t_arr delta_t new_length length = true ->
             exists r,
               find_start_inds si ul t_arr delta_t length new_length = Done r
               /\ nth_error (start_inds r) (Z.to_nat (length - 1))
                  = Some (start_index t_arr delta_t new_length (Z.to_nat (length - 1)))
               /\ sumZ (firstn (Z.to_nat (length - 1)) (unit_length r))
                  = start_index t_arr delta_t new_length (Z.to_nat (length - 1))).
  { intros D AD t_arr delta_t new_length si ul length Hbuf Hlen Hin.
    pose proof (locator_buffers_new_length _ _ _ _ _ Hbuf) as Hnew.
    destruct (find_start_inds_complete t_arr delta_t new_length Hnew _ _ _ Hbuf Hlen Hin)
      as [r [Hr [_ [_ Hinv]]]].
    exists r. split; [exact Hr |]. split.
    - apply Hinv. lia.
    - rewrite (located_sum _ _ _ _ _ _ (Z.to_nat (length - 1)) Hinv) by lia.
      cbn [start_index]. lia. }
  split.
  - intros D AD t_arr delta_t new_length si ul length Hbuf.
    pose proof (locator_buffers_new_length _ _ _ _ _ Hbuf) as Hnew. split.
    + intros k Hk.
      destruct (find_start_inds_truncated t_arr delta_t new_length Hnew _ _ _ _ Hbuf Hk)
        as [r [Hr [_ [Hlen [Hinv Hidx]]]]].
      exists r. split; [exact Hr |]. split; [exact Hlen |]. split.
      * rewrite <- Hidx. apply Hinv. lia.
      * rewrite (located_sum _ _ _ _ _ _ (Z.to_nat k) Hinv) by lia.
        rewrite Hidx. cbn [start_index]. lia.
    + apply Hnone. exact Hbuf.
  - intros t_arr delta_t new_length si ul length Hd Hbuf Hlen Hin.
    destruct (Hnone R Exact.arith t_arr delta_t new_length si ul length Hbuf
                ltac:(lia) Hin) as [r [Hr [_ Hsum]]].
    assert (Hlast : inside t_arr delta_t new_length (Z.to_nat (length - 1)) = true).
    { unfold no_truncation in Hin. rewrite forallb_forall in Hin.
      apply Hin, in_seq. lia. }
    destruct (exact_inside_bound t_arr delta_t new_length (Z.to_nat (length - 1)) Hd
                ltac:(lia) Hlast) as [Hc Hle].
    exists r. split; [exact Hr |]. rewrite Hsum. split; [exact Hc | exact Hle].
Qed.


(** ** The locator on binary64 inputs *)

(** C4 as stated fails: three knots inside a window of ten samples, no
    truncation, and the two segment lengths sum to 2. *)
Lemma segment_lengths_sum_counterexample :
  no_truncation [0; 1; 2]%float 1%float 10 3 = true
  /\ find_start_inds [0; 0; 0] [0; 0] [0; 1; 2]%float 1%float 3 10
     = Done (mk_located [0; 1; 2] [1; 1] 4 3)
  /\ sumZ [1; 1] = 2 /\ 2 <> 10.
Proof.
  split; [vm_compute; reflexivity |]. split; [vm_compute; reflexivity |].
  split; [reflexivity | discriminate].
Qed.

(** The returned length at a call whose second knot has a negative time,
    hence a negative start index: through the run of the call, and through
    the length the call returns. *)
Lemma find_start_inds_length_witness :
  (exists r,
     find_start_inds [0; 0; 0] [0; 0] [0; -1.5; 2]%float 1%float 3 10 = Done r
     /\ exit_index r = 3 /\ length_out r = 3 + 1)
  /\ (find_start_inds [0; 0; 0] [0; 0] [0; -1.5; 2]%float 1%float 3 10
      = Done (mk_located [0; -1; 2] [-1; 3] 4 3)
      /\ nth_error (start_inds (mk_located [0; -1; 2] [-1; 3] 4 3)) 0 = Some 0
      /\ exit_index (mk_located [0; -1; 2] [-1; 3] 4 3) = 3
      /\ length_out (mk_located [0; -1; 2] [-1; 3] 4 3) = 3 + 1).
Proof.
  split.
  - refine (proj2 (find_start_inds_length [0; -1.5; 2]%float 1%float 10
                     [0; 0; 0] [0; 0] 3) _ _ _);
      [vm_compute; reflexivity | lia | vm_compute; reflexivity].
  - assert (Hr : find_start_inds [0; 0; 0] [0; 0] [0; -1.5; 2]%float 1%float 3 10
                 = Done (mk_located [0; -1; 2] [-1; 3] 4 3)) by (vm_compute; reflexivity).
    destruct (proj1 (find_start_inds_length [0; -1.5; 2]%float 1%float 10
                       [0; 0; 0] [0; 0] 3) _ Hr) as [[H0 _] Hrun].
    destruct (Hrun ltac:(lia) ltac:(vm_compute; reflexivity)) as [Hexit Hout].
    split; [exact Hr |]. split; [exact H0 |]. split; [exact Hexit | exact Hout].
Defined.

(** At binary64 the fixed-antenna projection of finite amplitudes returns
    them as they are. *)
Lemma binary64_fixed_projection :
  project (mk_geometry 0 0 0 0 0 0 0 0 0 0.5 0)%float false (mk_antenna 1 0 0 1)%float
          (3, 4)%float
  = (3, 4)%float.
Proof. vm_compute. reflexivity. Qed.

(** Beyond the finite amplitudes the products with 0.0 decide: an infinite
    amplitude makes the other channel a NaN, and a negative zero can come
    out as a positive one. *)
Lemma binary64_fixed_projection_limits :
  project (mk_geometry 0 0 0 0 0 0 0 0 0 0.5 0)%float false (mk_antenna 1 0 0 1)%float
          (1, infinity)%float
  = (nan, infinity)%float
  /\ project (mk_geometry 0 0 0 0 0 0 0 0 0 0.5 0)%float false (mk_antenna 1 0 0 1)%float
             (neg_zero, 1)%float
     = (0, 1)%float.
Proof. split; vm_compute; reflexivity. Qed.

(** * Further properties *)

(** ** The geometry primitives in exact arithmetic *)

Section GeometryExact.

Local Open Scope R_scope.

Ltac geometry_unfold :=
  unfold d_vec_norm, d_dot_product, d_cross;
  cbn [c0 c1 c2 dadd dsub dmul dsqrt Exact.arith].

(** X1: the cross product is orthogonal to both of its arguments, and the
    cross product of a vector with itself is the zero vector. *)
Theorem d_cross_orthogonal (u v : vec3 R) :
  d_dot_product u (d_cross u v) = 0
  /\ d_dot_product v (d_cross u v) = 0
  /\ d_cross u u = mk_vec3 0 0 0.
Proof.
  split; [| split].
  - geometry_unfold. ring.
  - geometry_unfold. ring.
  - geometry_unfold. f_equal; ring.
Qed.

Lemma d_vec_norm_sqr (u : vec3 R) :
  d_vec_norm u * d_vec_norm u = d_dot_product u u.
Proof. geometry_unfold. apply sqrt_sqrt, sum_sqr_nonneg. Qed.

Lemma d_vec_norm_nonneg (u : vec3 R) : 0 <= d_vec_norm u.
Proof. geometry_unfold. apply sqrt_pos. Qed.

(** X2: the three primitives fit together as Lagrange's identity,
    |u x v|^2 + (u.v)^2 = |u|^2 |v|^2, so that |u.v| <= |u| |v|. *)
Theorem d_lagrange (u v : vec3 R) :
  d_vec_norm (d_cross u v) * d_vec_norm (d_cross u v)
  + d_dot_product u v * d_dot_product u v
  = (d_vec_norm u * d_vec_norm u) * (d_vec_norm v * d_vec_norm v)
  /\ Rabs (d_dot_product u v) <= d_vec_norm u * d_vec_norm v.
Proof.
  assert (Hid : d_vec_norm (d_cross u v) * d_vec_norm (d_cross u v)
                + d_dot_product u v * d_dot_product u v
                = (d_vec_norm u * d_vec_norm u) * (d_vec_norm v * d_vec_norm v)).
  { rewrite !d_vec_norm_sqr. unfold d_dot_product, d_cross.
    cbn [c0 c1 c2 dadd dsub dmul Exact.arith]. ring. }
  split; [exact Hid |].
  pose proof (d_vec_norm_nonneg u) as Hu. pose proof (d_vec_norm_nonneg v) as Hv.
  pose proof (d_vec_norm_nonneg (d_cross u v)) as Hc.
  set (d := d_dot_product u v) in *. set (a := d_vec_norm u) in *.
  set (b := d_vec_norm v) in *. set (c := d_vec_norm (d_cross u v)) in *.
  assert (Hab : 0 <= a * b) by now apply Rmult_le_pos.
  unfold Rabs. destruct (Rcase_abs d); nra.
Qed.

End GeometryExact.

(** ** The rotation-coefficient calculator in exact arithmetic *)

Section RotCoeffFrame.

Local Open Scope R_scope.

Lemma trig_one (x : R) : sin x * sin x + cos x * cos x - 1 = 0.
Proof. pose proof (sin2_cos2 x) as H. unfold Rsqr in H. lra. Qed.

(** X3: the three directions [d_RotCoeff] writes are unit vectors, and the
    orbital angular momentum [L] makes the angle [iota] with the spin [S]:
    L.S = cos(iota). *)
Theorem d_RotCoeff_frame (iota theta_S phi_S theta_K phi_K alpha : R) :
  let r := d_RotCoeff iota theta_S phi_S theta_K phi_K alpha in
  d_dot_product (n_rot r) (n_rot r) = 1
  /\ d_dot_product (S_rot r) (S_rot r) = 1
  /\ d_dot_product (L_rot r) (L_rot r) = 1
  /\ d_dot_product (L_rot r) (S_rot r) = cos iota.
Proof.
  intros r. subst r. unfold d_RotCoeff. cbv zeta.
  cbn [n_rot S_rot L_rot]. unfold d_dot_product.
  cbn [c0 c1 c2 dadd dsub dmul dsin dcos Exact.arith Exact.libm].
  pose proof (trig_one iota) as Hi. pose proof (trig_one theta_S) as HtS.
  pose proof (trig_one phi_S) as HpS. pose proof (trig_one theta_K) as Ht.
  pose proof (trig_one phi_K) as Hp. pose proof (trig_one alpha) as Ha.
  set (si := sin iota) in *. set (ci := cos iota) in *.
  set (st := sin theta_K) in *. set (ct := cos theta_K) in *.
  set (sp := sin phi_K) in *. set (cp := cos phi_K) in *.
  set (sa := sin alpha) in *. set (ca := cos alpha) in *.
  set (Ei := si * si + ci * ci - 1) in *. set (Et := st * st + ct * ct - 1) in *.
  set (Ep := sp * sp + cp * cp - 1) in *. set (Ea := sa * sa + ca * ca - 1) in *.
  split; [apply sky_unit |]. split; [apply sky_unit |]. split.
  - replace ((ci * st * cp + si * (sa * sp - ca * ct * cp))
             * (ci * st * cp + si * (sa * sp - ca * ct * cp))
             + (ci * st * sp - si * (sa * cp + ca * ct * sp))
               * (ci * st * sp - si * (sa * cp + ca * ct * sp))
             + (ci * ct + si * ca * st) * (ci * ct + si * ca * st))
      with (1 + Ei + ci * ci * (Et + st * st * Ep)
            - 2 * ci * si * st * ca * ct * Ep
            + si * si * (Ea + ca * ca * Et + Ep * (sa * sa + ca * ca * ct * ct)))
      by (unfold Ei, Et, Ep, Ea; ring).
    rewrite Hi, Ht, Hp, Ha. ring.
  - replace ((ci * st * cp + si * (sa * sp - ca * ct * cp)) * (st * cp)
             + (ci * st * sp - si * (sa * cp + ca * ct * sp)) * (st * sp)
             + (ci * ct + si * ca * st) * ct)
      with (ci + ci * (Et + st * st * Ep) - si * st * ca * ct * Ep)
      by (unfold Et, Ep; ring).
    rewrite Ht, Hp. ring.
Qed.

(** The algebra behind the bounds: with [f] at least the product of the
    norms and positive, the coefficients stay within [-1, 1]. *)
Lemma rot_bounds_identity (n0 n1 n2 L0 L1 L2 S0 S1 S2 f : R) :
  n0 * n0 + n1 * n1 + n2 * n2 = 1 ->
  0 < f ->
  let a0 := n1 * L2 - n2 * L1 in
  let a1 := n2 * L0 - n0 * L2 in
  let a2 := n0 * L1 - n1 * L0 in
  let b0 := n1 * S2 - n2 * S1 in
  let b1 := n2 * S0 - n0 * S2 in
  let b2 := n0 * S1 - n1 * S0 in
  (a0 * a0 + a1 * a1 + a2 * a2) * (b0 * b0 + b1 * b1 + b2 * b2) <= f * f ->
  let cosrot := (a0 * b0 + a1 * b1 + a2 * b2) / f in
  let sinrot := ((L0 * b0 + L1 * b1 + L2 * b2) - (S0 * a0 + S1 * a1 + S2 * a2)) / f in
  -1 <= 2 * cosrot * cosrot - 1 <= 1 /\ -1 <= cosrot * sinrot <= 1.
Proof.
  intros Hn Hf a0 a1 a2 b0 b1 b2 Hle cosrot sinrot.
  set (d := a0 * b0 + a1 * b1 + a2 * b2) in *.
  set (tau := n0 * (L1 * S2 - L2 * S1) + n1 * (L2 * S0 - L0 * S2)
              + n2 * (L0 * S1 - L1 * S0)).
  assert (Hs : (L0 * b0 + L1 * b1 + L2 * b2) - (S0 * a0 + S1 * a1 + S2 * a2)
               = - (2 * tau)) by (unfold a0, a1, a2, b0, b1, b2, tau; ring).
  assert (Hlag : (a0 * a0 + a1 * a1 + a2 * a2) * (b0 * b0 + b1 * b1 + b2 * b2)
                 = d * d + tau * tau * (n0 * n0 + n1 * n1 + n2 * n2))
    by (unfold d, a0, a1, a2, b0, b1, b2, tau; ring).
  rewrite Hn, Rmult_1_r in Hlag. rewrite Hlag in Hle.
  unfold sinrot, cosrot. rewrite Hs.
  set (c := d / f). set (s := tau / f).
  assert (Hcs : c * c + s * s <= 1).
  { assert (Hc : c * f = d) by (unfold c; field; lra).
    assert (Ht : s * f = tau) by (unfold s; field; lra).
    apply Rmult_le_reg_r with (r := f * f); [nra |].
    replace ((c * c + s * s) * (f * f)) with ((c * f) * (c * f) + (s * f) * (s * f))
      by ring.
    rewrite Hc, Ht. lra. }
  replace (- (2 * tau) / f) with (- 2 * s) by (unfold s; field; lra).
  pose proof (Rle_0_sqr c) as Hc2. pose proof (Rle_0_sqr s) as Hs2.
  pose proof (Rle_0_sqr (c - s)) as Hm. pose proof (Rle_0_sqr (c + s)) as Hp.
  unfold Rsqr in Hc2, Hs2, Hm, Hp.
  split; split; lra.
Qed.

(** X4: for every input, floor engaged or not, the coefficients are within
    [-1, 1]: the floor keeps the degenerate geometries finite and bounded. *)
Theorem d_RotCoeff_bounded (iota theta_S phi_S theta_K phi_K alpha : R) :
  let r := rot (d_RotCoeff iota theta_S phi_S theta_K phi_K alpha) in
  (-1 <= rot0 r <= 1 /\ -1 <= rot1 r <= 1)
  /\ (-1 <= rot3 r <= 1 /\ -1 <= rot2 r <= 1).
Proof.
  intros r. subst r. unfold d_RotCoeff.
  cbn [rot rot0 rot1 rot2 rot3].
  set (n := mk_vec3 _ _ _). set (S := mk_vec3 (dmul (dsin theta_K) _) _ _).
  set (L := mk_vec3 (dadd _ _) _ _).
  set (N := dmul (d_vec_norm (d_cross n L)) (d_vec_norm (d_cross n S))).
  change (dec 1 (-6)) with (1 / 1000000).
  set (f := if dltb N (1 / 1000000) then 1 / 1000000 else N).
  assert (HN0 : 0 <= N)
    by (apply Rmult_le_pos; apply d_vec_norm_nonneg).
  assert (Hf : 0 < f /\ N <= f).
  { unfold f. change (dltb N (1 / 1000000)) with (Exact.ltb N (1 / 1000000)).
    unfold Exact.ltb. destruct (Rlt_dec N (1 / 1000000)); lra. }
  destruct Hf as [Hf HNf].
  assert (HNN : (let a := d_cross n L in c0 a * c0 a + c1 a * c1 a + c2 a * c2 a)
                * (let b := d_cross n S in c0 b * c0 b + c1 b * c1 b + c2 b * c2 b)
                <= f * f).
  { replace ((let a := d_cross n L in c0 a * c0 a + c1 a * c1 a + c2 a * c2 a)
             * (let b := d_cross n S in c0 b * c0 b + c1 b * c1 b + c2 b * c2 b))
      with (N * N).
    - nra.
    - unfold N. cbn [dmul Exact.arith]. cbv zeta.
      replace (d_vec_norm (d_cross n L) * d_vec_norm (d_cross n S)
               * (d_vec_norm (d_cross n L) * d_vec_norm (d_cross n S)))
        with ((d_vec_norm (d_cross n L) * d_vec_norm (d_cross n L))
              * (d_vec_norm (d_cross n S) * d_vec_norm (d_cross n S))) by ring.
      rewrite !d_vec_norm_sqr. reflexivity. }
  pose proof (sky_unit theta_S phi_S) as Hn.
  pose proof (rot_bounds_identity (c0 n) (c1 n) (c2 n) (c0 L) (c1 L) (c2 L)
                (c0 S) (c1 S) (c2 S) f Hn Hf HNN) as [H0 H1].
  cbv zeta in H0, H1. split; [split; [exact H0 | exact H1] |].
  split; [exact H0 |].
  cbn [dneg Exact.arith].
  match goal with
  | |- _ <= - ?x <= _ => assert (Hx : -1 <= x <= 1) by exact H1; lra
  end.
Qed.

End RotCoeffFrame.

(** ** More on the synthesis kernel *)

Section KernelMore.

Context {D : Type} {AD : Arith D} {LD : Libm D} {CD : Consts D}.

Local Open Scope dbl_scope.

Variables (interp_array : list D) (M_phys S_phys mu qS phiS qK phiK dist : D)
          (nmodes : Z) (mich : bool) (delta_t : D) (start_t_all : list D)
          (interval_inds : list Z) (data_length init_length : Z).

Local Abbreviation kernel :=
  (make_waveform interp_array M_phys S_phys mu qS phiS qK phiK dist nmodes mich
                 delta_t start_t_all interval_inds data_length init_length).
Local Abbreviation valid wave :=
  (valid_call wave interp_array start_t_all interval_inds nmodes data_length init_length).

(** Of the output buffer only the length matters to the validity of a call. *)
Lemma valid_call_length (w w' : list (cmplx D)) :
  List.length w = List.length w' -> valid w = valid w'.
Proof. intros Hlen. unfold valid_call. now rewrite Hlen. Qed.

Lemma valid_call_wave (w : list (cmplx D)) :
  valid w = true -> (Z.to_nat data_length <= List.length w)%nat.
Proof.
  unfold valid_call. rewrite !andb_true_iff.
  intros [[[[[[[_ _] _] _] Hwave] _] _] _]. apply Z.leb_le in Hwave. lia.
Qed.

Lemma Zrange_length (n : Z) : List.length (Zrange n) = Z.to_nat n.
Proof. unfold Zrange. now rewrite length_map, length_seq. Qed.

Lemma make_waveform_run_length (s : mem D) :
  valid (waveform s) = true ->
  List.length (waveform (snd (kernel s))) = List.length (waveform s).
Proof.
  intros Hvalid. pose proof (valid_call_wave _ Hvalid) as Hlen.
  rewrite (make_waveform_run _ _ _ _ _ _ _ _ _ _ _ _ _ _ _ _ s Hvalid).
  cbn [snd waveform].
  rewrite length_app, length_map, Zrange_length, length_skipn. lia.
Qed.

(** X5: a valid call keeps the length of the output buffer and leaves every
    cell from [data_length] on as it was. *)
Theorem make_waveform_frame (s : mem D) :
  valid (waveform s) = true ->
  List.length (waveform (snd (kernel s))) = List.length (waveform s)
  /\ forall j, (Z.to_nat data_length <= j)%nat ->
       nth_error (waveform (snd (kernel s))) j = nth_error (waveform s) j.
Proof.
  intros Hvalid. pose proof (valid_call_wave _ Hvalid) as Hlen.
  rewrite (make_waveform_run _ _ _ _ _ _ _ _ _ _ _ _ _ _ _ _ s Hvalid).
  cbn [snd waveform]. split.
  - rewrite length_app, length_map, Zrange_length, length_skipn. lia.
  - intros j Hj.
    rewrite nth_error_app2 by (rewrite length_map, Zrange_length; lia).
    rewrite length_map, Zrange_length, nth_error_skipn. f_equal. lia.
Qed.

(** X6: the call is idempotent on the buffer: a second call with the same
    arguments on the buffer the first one left returns and leaves the same
    buffer. *)
Theorem make_waveform_idempotent (s : mem D) :
  valid (waveform s) = true ->
  let s1 := snd (kernel s) in
  fst (kernel s1) = Done tt /\ waveform (snd (kernel s1)) = waveform s1.
Proof.
  intros Hvalid s1. pose proof (valid_call_wave _ Hvalid) as Hlen.
  assert (Hvalid1 : valid (waveform s1) = true).
  { rewrite <- Hvalid. apply valid_call_length.
    now apply make_waveform_run_length. }
  rewrite (make_waveform_run _ _ _ _ _ _ _ _ _ _ _ _ _ _ _ _ s1 Hvalid1).
  cbn [fst snd waveform]. split; [reflexivity |].
  subst s1. rewrite (make_waveform_run _ _ _ _ _ _ _ _ _ _ _ _ _ _ _ _ s Hvalid).
  cbn [snd waveform]. f_equal.
  rewrite skipn_app, length_map, Zrange_length, Nat.sub_diag. cbn [skipn].
  rewrite skipn_all2 by (rewrite length_map, Zrange_length; lia).
  reflexivity.
Qed.

(** X7: a valid call for an empty output ([data_length <= 0]) returns
    without a store: buffer and trace are as before. *)
Theorem make_waveform_empty (s : mem D) :
  valid (waveform s) = true -> (data_length <= 0)%Z -> kernel s = (Done tt, s).
Proof.
  intros Hvalid Hn.
  rewrite (make_waveform_run _ _ _ _ _ _ _ _ _ _ _ _ _ _ _ _ s Hvalid).
  unfold Zrange. replace (Z.to_nat data_length) with 0%nat by lia.
  cbn [seq map flat_map skipn app trace_of]. rewrite app_nil_r. now destruct s.
Qed.

(** The staging loop cannot run past the end of its destination. *)
Lemma copy_loop_overflow (src : list D) (fuel i : nat) (dst : list (option D)) :
  (i <= List.length dst < i + fuel)%nat ->
  copy_loop fuel (Z.of_nat i) src dst = Undefined.
Proof.
  revert i dst. induction fuel as [| k IH]; intros i dst Hi; [lia |].
  cbn [copy_loop].
  destruct (rd src (Z.of_nat i)) as [v | msg code |] eqn:Hv; cbn [obind];
    [| now destruct (quiet_rd src (Z.of_nat i) msg code) | reflexivity].
  destruct (Nat.eq_dec i (List.length dst)) as [Heq | Hne].
  - unfold wr.
    replace ((0 <=? Z.of_nat i)%Z && (Z.of_nat i <? Z.of_nat (List.length dst))%Z)
      with false; [reflexivity |].
    symmetry. apply andb_false_iff. right. apply Z.ltb_ge. lia.
  - rewrite wr_done by lia. cbn [obind].
    replace (Z.of_nat i + 1)%Z with (Z.of_nat (S i)) by lia.
    apply IH. rewrite length_upd. lia.
Qed.

(** X8: called with more than 160 segments the kernel itself is undefined,
    whatever the buffers: staging the coefficients runs past the 5120 cells
    of [spline_coeffs] (or the product [4 * NUM_PARS * init_length]
    overflows), before any store to the output buffer.  The guard of
    [get_waveform] is what keeps the kernel from it. *)
Theorem make_waveform_overflow (s : mem D) :
  (MAX_SPLINE_POINTS < init_length)%Z -> kernel s = (Undefined, s).
Proof.
  intros Hbig. unfold make_waveform, MAX_SPLINE_POINTS, NUM_PARS in *.
  destruct (in_int (4 * 8 * init_length)); cbn [negb]; [| reflexivity].
  unfold bind at 1. unfold lift at 1.
  pose proof (copy_loop_overflow interp_array (Z.to_nat (4 * 8 * init_length)) 0
                (repeat None (Z.to_nat (8 * 4 * 160)))) as Hov.
  rewrite repeat_length in Hov. cbn [Z.of_nat] in Hov.
  rewrite Hov by lia. reflexivity.
Qed.

Lemma accumulate_next (h : Z -> D * D) (n : Z) :
  (0 <= n)%Z ->
  accumulate h (n + 1)
  = (fst (accumulate h n) + fst (h (n + 1)%Z), snd (accumulate h n) + snd (h (n + 1)%Z)).
Proof.
  intros Hn. unfold accumulate, harmonics.
  replace (Z.to_nat (n + 1)) with (S (Z.to_nat n)) by lia.
  rewrite seq_S, map_app, fold_left_app. cbn [map fold_left].
  replace (Z.of_nat (1 + Z.to_nat n)) with (n + 1)%Z by lia.
  reflexivity.
Qed.

(** X10: one more harmonic adds its own contribution to the two channels and
    changes nothing else: the sample with [nmodes + 1] modes is the sample
    with [nmodes] modes plus the pair (hnI, hnII) of harmonic [nmodes + 1]. *)
Theorem sample_next_mode (spline_coeffs start_t : list (option D)) (g : geometry D)
    (i : Z) (h : Z -> D * D) :
  (0 <= nmodes)%Z -> (nmodes + 1 < INT_MAX)%Z ->
  sample_harmonic spline_coeffs start_t g M_phys S_phys phiS phiK mich delta_t
                  interval_inds init_length i = Done h ->
  exists hItemp hIItemp,
    sample spline_coeffs start_t g M_phys S_phys phiS phiK nmodes mich delta_t
           interval_inds init_length i = Done (hItemp, hIItemp)
    /\ sample spline_coeffs start_t g M_phys S_phys phiS phiK (nmodes + 1) mich delta_t
              interval_inds init_length i
       = Done (hItemp + fst (h (nmodes + 1)%Z), hIItemp + snd (h (nmodes + 1)%Z)).
Proof.
  intros H0 Hmax Hh. unfold sample. rewrite Hh. cbn [obind].
  destruct (nmodes =? INT_MAX)%Z eqn:E1; [apply Z.eqb_eq in E1; lia |].
  destruct (nmodes + 1 =? INT_MAX)%Z eqn:E2; [apply Z.eqb_eq in E2; lia |].
  rewrite !harmonic_loop_accumulate, (accumulate_next h nmodes H0).
  destruct (accumulate h nmodes) as [a b]. exists a, b. split; reflexivity.
Qed.

(** *** When the kernel returns *)

Ltac open_obind H :=
  let a := fresh "a" in
  let E := fresh "E" in
  apply obind_done in H; destruct H as [a [E H]].













End KernelMore.

(** ** The clamps in exact arithmetic *)

Section ClampsExact.

Local Open Scope R_scope.

Lemma clamp_range (x : R) :
  let fill := 1 / 1000000 in
  let y := if Exact.ltb x fill then fill else x in
  let z := if Exact.ltb (PI - fill) y then PI - fill else y in
  fill <= z <= PI - fill.
Proof.
  pose proof PI2_1 as Hpi. cbv zeta. unfold Exact.ltb.
  destruct (Rlt_dec x (1 / 1000000));
    destruct (Rlt_dec (PI - 1 / 1000000) _); lra.
Qed.

Lemma clamp_range_high_first (x : R) :
  let fill := 1 / 1000000 in
  let y := if Exact.ltb (PI - fill) x then PI - fill else x in
  let z := if Exact.ltb y fill then fill else y in
  fill <= z <= PI - fill.
Proof.
  pose proof PI2_1 as Hpi. cbv zeta. unfold Exact.ltb.
  destruct (Rlt_dec (PI - 1 / 1000000) x);
    destruct (Rlt_dec _ (1 / 1000000)); lra.
Qed.

Lemma sin_pos_clamped (x : R) : 1 / 1000000 <= x <= PI - 1 / 1000000 -> 0 < sin x.
Proof. intros Hx. apply sin_gt_0; lra. Qed.

(** X11: whatever the colatitudes [qS], [qK] and the spline value of [lam],
    the kernel works with angles in [1e-6, pi - 1e-6]; their sines are
    positive, so the division by [sinqK] of line 267 is by a positive
    number. *)
Theorem clamps_keep_off_poles (mu qS qK phiK dist S_phys phiS : R) (p : spline_pars R) :
  let g := unroll mu qS qK phiK dist in
  let lam := o_lam (orient g S_phys phiS phiK p) in
  (1 / 1000000 <= g_qS g <= PI - 1 / 1000000
   /\ 1 / 1000000 <= g_qK g <= PI - 1 / 1000000
   /\ 1 / 1000000 <= lam <= PI - 1 / 1000000)
  /\ (0 < sinqS g /\ 0 < sinqK g /\ 0 < sin lam).
Proof.
  intros g lam.
  assert (HqS : 1 / 1000000 <= g_qS g <= PI - 1 / 1000000) by apply (clamp_range qS).
  assert (HqK : 1 / 1000000 <= g_qK g <= PI - 1 / 1000000) by apply (clamp_range qK).
  assert (Hlam : 1 / 1000000 <= lam <= PI - 1 / 1000000)
    by apply (clamp_range_high_first (lam_ p)).
  split; [now repeat split |].
  split; [| split].
  - apply (sin_pos_clamped (g_qS g) HqS).
  - apply (sin_pos_clamped (g_qK g) HqK).
  - apply (sin_pos_clamped lam Hlam).
Qed.

End ClampsExact.

(** ** More on the spline-segment locator *)

Section LocatorMore.

Context {D : Type} {AD : Arith D}.

Variables (t_arr : list D) (delta_t : D) (new_length : Z).

Ltac open_obind H :=
  let a := fresh "a" in
  let E := fresh "E" in
  apply obind_done in H; destruct H as [a [E H]].

(** What the loop leaves alone, and where it stops. *)
Lemma locate_loop_frame (T : D) (fuel i : nat) (si ul : list Z)
    (e : Z) (si' ul' : list Z) :
  (1 <= i)%nat ->
  locate_loop t_arr delta_t T new_length fuel (Z.of_nat i) si ul = Done (e, si', ul') ->
  (Z.of_nat i <= e <= Z.of_nat (i + fuel))%Z
  /\ List.length si' = List.length si /\ List.length ul' = List.length ul
  /\ (forall j : nat, (j < i)%nat \/ (e < Z.of_nat j)%Z ->
        nth_error si' j = nth_error si j)
  /\ (forall j : nat, (S j < i)%nat \/ (e <= Z.of_nat j)%Z ->
        nth_error ul' j = nth_error ul j).
Proof.
  revert i si ul. induction fuel as [| k IH]; intros i si ul Hi H.
  - cbn in H. inversion H. subst. rewrite Nat.add_0_r.
    repeat split; auto; lia.
  - cbn [locate_loop] in H. open_obind H.
    destruct (dltb a T).
    + do 6 open_obind H.
      replace (Z.of_nat i + 1)%Z with (Z.of_nat (S i)) in H by lia.
      apply IH in H; [| lia].
      destruct H as [He [Hl1 [Hl2 [Hsi Hul]]]].
      apply wr_inv in E1. destruct E1 as [-> Hw1].
      apply wr_inv in E5. destruct E5 as [-> Hw2].
      rewrite Nat2Z.id in *.
      replace (Z.to_nat (Z.of_nat i - 1)) with (i - 1)%nat in * by lia.
      rewrite length_upd in *.
      split; [lia |]. split; [exact Hl1 |]. split; [exact Hl2 |].
      split; intros j Hj.
      * rewrite Hsi by lia. apply nth_error_upd_other. lia.
      * rewrite Hul by lia. apply nth_error_upd_other. lia.
    + do 4 open_obind H. inversion H. subst.
      apply wr_inv in E0. destruct E0 as [-> Hw1].
      apply wr_inv in E3. destruct E3 as [-> Hw2].
      rewrite Nat2Z.id in *.
      replace (Z.to_nat (Z.of_nat i - 1)) with (i - 1)%nat in * by lia.
      rewrite !length_upd.
      split; [lia |]. split; [reflexivity |]. split; [reflexivity |].
      split; intros j Hj; apply nth_error_upd_other; lia.
Qed.

(** X12: a call that returns keeps the lengths of the two arrays, writes no
    start index above the exit index and no segment length at or above it,
    and returns a length between 2 and max(1, length) + 1. *)
Theorem find_start_inds_frame (start_inds0 unit_length0 : list Z) (length : Z)
    (r : located) :
  find_start_inds start_inds0 unit_length0 t_arr delta_t length new_length = Done r ->
  (List.length (start_inds r) = List.length start_inds0
   /\ List.length (unit_length r) = List.length unit_length0)
  /\ (forall j, (exit_index r < Z.of_nat j)%Z ->
        nth_error (start_inds r) j = nth_error start_inds0 j)
  /\ (forall j, (exit_index r <= Z.of_nat j)%Z ->
        nth_error (unit_length r) j = nth_error unit_length0 j)
  /\ (1 <= exit_index r <= Z.max 1 length
      /\ 2 <= length_out r <= Z.max 1 length + 1)%Z.
Proof.
  unfold find_start_inds. intros H. do 3 open_obind H.
  destruct a1 as [[e si'] ul']. open_obind H. inversion H. subst r.
  cbn [start_inds unit_length exit_index length_out].
  change 1%Z with (Z.of_nat 1) in E1.
  apply locate_loop_frame in E1; [| lia].
  destruct E1 as [He [Hl1 [Hl2 [Hsi Hul]]]].
  apply wr_inv in E0. destruct E0 as [-> Hw]. cbn [Z.to_nat] in *.
  rewrite length_upd in Hl1.
  unfold int_result in E2. destruct (in_int (e + 1)); [| discriminate].
  injection E2 as Hlen. subst.
  split; [now split |]. split; [| split; [| lia]].
  - intros j Hj. rewrite Hsi by lia. apply nth_error_upd_other. lia.
  - intros j Hj. apply Hul. lia.
Qed.

End LocatorMore.

(** ** The locator in exact arithmetic *)

Section LocatorExact.

Local Open Scope R_scope.

Variables (t_arr : list R) (delta_t : R) (new_length : Z).

Hypothesis delta_t_pos : 0 < delta_t.
Hypothesis new_length_int : (0 <= new_length <= INT_MAX)%Z.

(** A knot at a time in [0, T) is inside the window, and its start index is
    the ceiling of its time over the sample spacing, at most
    [new_length - 1]. *)
Lemma exact_inside (i : nat) (t : R) :
  (1 <= i)%nat -> nth_error t_arr i = Some t ->
  0 <= t < IZR (new_length - 1) * delta_t ->
  inside t_arr delta_t new_length i = true
  /\ start_index t_arr delta_t new_length i = Exact.ceilZ (t / delta_t)
  /\ (0 <= Exact.ceilZ (t / delta_t) <= new_length - 1)%Z.
Proof.
  intros Hi Ht [H0 HT].
  assert (Hq0 : 0 <= t / delta_t) by (apply Rle_mult_inv_pos; assumption).
  assert (Hq1 : t / delta_t <= IZR (new_length - 1)).
  { apply Rmult_le_reg_r with (r := delta_t); [exact delta_t_pos |].
    unfold Rdiv. rewrite Rmult_assoc, Rinv_l by lra. lra. }
  assert (Hc : (0 <= Exact.ceilZ (t / delta_t) <= new_length - 1)%Z)
    by (split; [apply ceilZ_ge | apply ceilZ_le]; assumption).
  assert (Hlt : dltb t (window_end delta_t new_length) = true).
  { unfold window_end. cbn [dltb dmul of_int Exact.arith]. unfold Exact.ltb.
    destruct (Rlt_dec t (IZR (new_length - 1) * delta_t)); [reflexivity | contradiction]. }
  assert (Hk : knot_index delta_t t = Some (Exact.ceilZ (t / delta_t))).
  { unfold knot_index.
    change (ddiv t delta_t) with (t / delta_t).
    rewrite exact_cast_ceil
      by (unfold in_int, INT_MIN, INT_MAX in *; apply andb_true_iff;
          split; apply Z.leb_le; lia).
    replace ((0 <=? Exact.ceilZ (t / delta_t))%Z
             && (Exact.ceilZ (t / delta_t) <=? INT_MAX)%Z) with true; [reflexivity |].
    symmetry. apply andb_true_iff. split; apply Z.leb_le; lia. }
  split; [| split; [| exact Hc]].
  - unfold inside. now rewrite Ht, Hlt, Hk.
  - unfold start_index. destruct i; [lia |]. now rewrite Ht, Hlt, Hk.
Qed.

(** The run of the locator on knots that all lie in [0, T). *)
Lemma find_start_inds_exact_run (start_inds0 unit_length0 : list Z) (length : Z) :
  locator_buffers start_inds0 unit_length0 t_arr length new_length = true ->
  (1 <= length)%Z ->
  (forall i, (1 <= i < Z.to_nat length)%nat ->
     0 <= nth i t_arr 0 < IZR (new_length - 1) * delta_t) ->
  exists r,
    find_start_inds start_inds0 unit_length0 t_arr delta_t length new_length = Done r
    /\ length_out r = (length + 1)%Z
    /\ located_upto t_arr delta_t new_length (start_inds r) (unit_length r)
                    (Z.to_nat length)
    /\ forall i, (1 <= i < Z.to_nat length)%nat ->
         start_index t_arr delta_t new_length i = Exact.ceilZ (nth i t_arr 0 / delta_t)
         /\ (0 <= Exact.ceilZ (nth i t_arr 0%R / delta_t) <= new_length - 1)%Z.
Proof.
  intros Hbuf Hlen Hknots.
  assert (Htlen : (Z.to_nat length <= List.length t_arr)%nat).
  { unfold locator_buffers in Hbuf. rewrite !andb_true_iff in Hbuf.
    destruct Hbuf as [[[[_ Ht] _] _] _]. apply Z.leb_le in Ht. lia. }
  assert (Hall : forall i, (1 <= i < Z.to_nat length)%nat ->
            inside t_arr delta_t new_length i = true
            /\ start_index t_arr delta_t new_length i
               = Exact.ceilZ (nth i t_arr 0 / delta_t)
            /\ (0 <= Exact.ceilZ (nth i t_arr 0%R / delta_t) <= new_length - 1)%Z).
  { intros i Hi. apply exact_inside; [lia | | apply Hknots; lia].
    apply nth_error_nth'. lia. }
  assert (Hno : no_truncation t_arr delta_t new_length length = true).
  { unfold no_truncation. apply forallb_forall. intros i Hin.
    apply in_seq in Hin. apply Hall. lia. }
  destruct (find_start_inds_complete t_arr delta_t new_length new_length_int
              _ _ _ Hbuf Hlen Hno) as [r [Hr [_ [Hout Hinv]]]].
  exists r. split; [exact Hr |]. split; [exact Hout |]. split; [exact Hinv |].
  intros i Hi. apply Hall. exact Hi.
Qed.

(** X13: in exact arithmetic, for knots from index 1 on at times in [0, T)
    the start index of a knot is the first dense sample at or after its
    time, it is at most [new_length - 1], and so the segment lengths sum to
    less than the output sample count. *)
Theorem find_start_inds_first_sample (start_inds0 unit_length0 : list Z) (length : Z) :
  locator_buffers start_inds0 unit_length0 t_arr length new_length = true ->
  (2 <= length)%Z ->
  (forall i, (1 <= i < Z.to_nat length)%nat ->
     0 <= nth i t_arr 0 < IZR (new_length - 1) * delta_t) ->
  exists r,
    find_start_inds start_inds0 unit_length0 t_arr delta_t length new_length = Done r
    /\ (forall i, (1 <= i < Z.to_nat length)%nat ->
          exists z, nth_error (start_inds r) i = Some z
                    /\ (IZR z - 1) * delta_t < nth i t_arr 0 <= IZR z * delta_t
                    /\ (0 <= z <= new_length - 1)%Z)
    /\ (sumZ (firstn (Z.to_nat (length - 1)) (unit_length r)) < new_length)%Z.
Proof.
  intros Hbuf Hlen Hknots.
  destruct (find_start_inds_exact_run _ _ _ Hbuf ltac:(lia) Hknots)
    as [r [Hr [_ [Hinv Hidx]]]].
  exists r. split; [exact Hr |]. split.
  - intros i Hi. destruct (Hidx i Hi) as [Hs Hc].
    exists (Exact.ceilZ (nth i t_arr 0 / delta_t)). split; [| split; [| exact Hc]].
    + rewrite <- Hs. apply Hinv. lia.
    + destruct (ceilZ_spec (nth i t_arr 0 / delta_t)) as [H1 H2].
      set (q := nth i t_arr 0 / delta_t) in *.
      assert (Hq : q * delta_t = nth i t_arr 0) by (unfold q; field; lra).
      rewrite <- Hq. split.
      * apply Rmult_lt_compat_r; assumption.
      * apply Rmult_le_compat_r; lra.
  - rewrite (located_sum _ _ _ _ _ _ (Z.to_nat (length - 1)) Hinv) by lia.
    destruct (Hidx (Z.to_nat (length - 1)) ltac:(lia)) as [Hs Hc].
    rewrite Hs. cbn [start_index]. lia.
Qed.

(** X14: in exact arithmetic, for knots in [0, T) whose times do not
    decrease, no segment length is negative. *)
Theorem find_start_inds_lengths_nonneg (start_inds0 unit_length0 : list Z) (length : Z) :
  locator_buffers start_inds0 unit_length0 t_arr length new_length = true ->
  (1 <= length)%Z ->
  (forall i, (1 <= i < Z.to_nat length)%nat ->
     0 <= nth i t_arr 0 < IZR (new_length - 1) * delta_t) ->
  (forall i, (1 <= i)%nat -> (S i < Z.to_nat length)%nat ->
     nth i t_arr 0 <= nth (S i) t_arr 0) ->
  exists r,
    find_start_inds start_inds0 unit_length0 t_arr delta_t length new_length = Done r
    /\ forall j, (S j < Z.to_nat length)%nat ->
         exists d, nth_error (unit_length r) j = Some d /\ (0 <= d)%Z.
Proof.
  intros Hbuf Hlen Hknots Hmono.
  destruct (find_start_inds_exact_run _ _ _ Hbuf Hlen Hknots)
    as [r [Hr [_ [Hinv Hidx]]]].
  exists r. split; [exact Hr |]. intros j Hj.
  eexists. split; [apply Hinv; lia |].
  destruct (Hidx (S j) ltac:(lia)) as [Hs1 Hc1]. rewrite Hs1.
  destruct j as [| j].
  - cbn [start_index]. lia.
  - destruct (Hidx (S j) ltac:(lia)) as [Hs0 _]. rewrite Hs0.
    assert (Hq : nth (S j) t_arr 0 / delta_t <= nth (S (S j)) t_arr 0 / delta_t).
    { apply Rmult_le_compat_r; [left; now apply Rinv_0_lt_compat |].
      apply Hmono; lia. }
    apply ceilZ_monotone in Hq. lia.
Qed.


End LocatorExact.

(** The sum of the segment lengths at a truncated binary64 call, and at a
    call without truncation in exact arithmetic. *)
Lemma segment_lengths_sum_witness :
  (exists r,
     find_start_inds [0; 0; 0; 0] [0; 0; 0] [0; 1.5; 20; 30]%float 0.5%float 4 10 = Done r
     /\ length_out r = 3
     /\ nth_error (start_inds r) 2 = Some 10
     /\ sumZ (firstn 2 (unit_length r)) = 10)
  /\ (exists r,
        find_start_inds [0; 0; 0] [0; 0] [0; 1; 2]%R 1%R 3 10 = Done r
        /\ sumZ (firstn 2 (unit_length r)) = Exact.ceilZ (2 / 1)
        /\ sumZ (firstn 2 (unit_length r)) <= 10 - 1).
Proof.
  split.
  - refine (proj1 (proj1 segment_lengths_sum float Binary64.arith
                     [0; 1.5; 20; 30]%float 0.5%float 10 [0; 0; 0; 0] [0; 0; 0] 4 _) 2 _);
      vm_compute; reflexivity.
  - refine (proj2 segment_lengths_sum [0; 1; 2]%R 1%R 10 [0; 0; 0] [0; 0] 3 _ _ _ _);
      [lra | reflexivity | lia |].
    assert (Hin : forall i t, (1 <= i)%nat -> nth_error [0; 1; 2]%R i = Some t ->
              (0 <= t < IZR (10 - 1) * 1)%R ->
              inside [0; 1; 2]%R 1%R 10 i = true).
    { intros i t Hi Ht Hr.
      apply (exact_inside [0; 1; 2]%R 1%R 10 ltac:(lra) ltac:(unfold INT_MAX; lia)
               i t Hi Ht Hr). }
    unfold no_truncation. change (Z.to_nat 3 - 1)%nat with 2%nat.
    cbn [seq forallb].
    rewrite (Hin 1%nat 1%R), (Hin 2%nat 2%R); try reflexivity; try lia; cbn; lra.
Defined.

(** ** The outcomes of the entry point *)

Section EntryPoint.

Context {D : Type} {AD : Arith D} {LD : Libm D} {CD : Consts D}.



End EntryPoint.

(** ** The waveform is linear in the mass [mu] (exact arithmetic) *)

Section AmplitudeExact.

Local Open Scope R_scope.

(** [mu] enters the per-call values through [zeta] only. *)
Lemma unroll_scale (k mu qS qK phiK dist : R) :
  let g := unroll mu qS qK phiK dist in
  unroll (k * mu) qS qK phiK dist
  = mk_geometry (fill_val g) (g_qS g) (g_qK g) (cosqS g) (sinqS g) (cosqK g) (sinqK g)
                (cosphiK g) (sinphiK g) (halfsqrt3 g) (k * zeta g).
Proof.
  cbv zeta. unfold unroll. cbn [fill_val g_qS g_qK cosqS sinqS cosqK sinqK cosphiK sinphiK
                                halfsqrt3 zeta].
  f_equal. cbn [dmul ddiv Exact.arith]. unfold Rdiv. ring.
Qed.

(** One harmonic is linear in the amplitude [Amp]. *)
Lemma harmonic_scale (k : R) (g g' : geometry R) (mich : bool) (phiS : R)
    (p : spline_pars R) (o : orientation R) (F : antenna R) (Amp : R) (rot : vec4 R)
    (n : Z) :
  sinqS g' = sinqS g -> halfsqrt3 g' = halfsqrt3 g ->
  harmonic g' mich phiS p o F (k * Amp) rot n
  = (k * fst (harmonic g mich phiS p o F Amp rot n),
     k * snd (harmonic g mich phiS p o F Amp rot n)).
Proof.
  intros HsS Hh3.
  unfold harmonic, polarizations, project. rewrite HsS, Hh3.
  destruct (bessel5 n (e_ p)) as [[[[J0 J1] J2] J3] J4].
  destruct mich; cbn [fst snd dadd dsub dmul ddiv dneg Exact.arith];
    f_equal; unfold Rdiv; ring.
Qed.

Lemma harmonic_loop_scale (k : R) (h h' : Z -> R * R) (fuel : nat) (n : Z) (a b : R) :
  (forall m, h' m = (k * fst (h m), k * snd (h m))) ->
  harmonic_loop h' fuel n (k * a) (k * b)
  = (k * fst (harmonic_loop h fuel n a b), k * snd (harmonic_loop h fuel n a b)).
Proof.
  intros Hh. revert n a b. induction fuel as [| f IH]; intros n a b; [reflexivity |].
  cbn [harmonic_loop]. rewrite Hh. destruct (h n) as [x y]. cbn [fst snd].
  cbn [dadd Exact.arith].
  replace (k * a + k * x) with (k * (a + x)) by ring.
  replace (k * b + k * y) with (k * (b + y)) by ring.
  apply IH.
Qed.

Lemma sample_scale (k : R) (spline_coeffs start_t : list (option R))
    (mu qS qK phiK dist M_phys S_phys phiS : R) (nmodes : Z) (mich : bool) (delta_t : R)
    (interval_inds : list Z) (init_length i : Z) (a b : R) :
  sample spline_coeffs start_t (unroll mu qS qK phiK dist) M_phys S_phys phiS phiK nmodes
         mich delta_t interval_inds init_length i = Done (a, b) ->
  sample spline_coeffs start_t (unroll (k * mu) qS qK phiK dist) M_phys S_phys phiS phiK
         nmodes mich delta_t interval_inds init_length i = Done (k * a, k * b).
Proof.
  unfold sample, sample_harmonic.
  destruct (eval_splines spline_coeffs start_t interval_inds init_length delta_t i)
    as [p | |]; cbn [obind]; try discriminate.
  destruct (nmodes =? INT_MAX)%Z; [discriminate |].
  intros H. injection H as H. f_equal.
  rewrite unroll_scale. cbv zeta.
  set (g := unroll mu qS qK phiK dist) in *.
  set (g' := mk_geometry _ _ _ _ _ _ _ _ _ _ _).
  assert (Ho : orient g' S_phys phiS phiK p = orient g S_phys phiS phiK p) by reflexivity.
  assert (HF : antenna_pattern g' mich phiS phiK (t_ p)
               = antenna_pattern g mich phiS phiK (t_ p)) by reflexivity.
  assert (HA : amplitude g' M_phys p = k * amplitude g M_phys p).
  { unfold amplitude, g'. cbn [zeta dmul Exact.arith]. ring. }
  rewrite Ho, HF, HA. change (g_qS g') with (g_qS g). change (g_qK g') with (g_qK g).
  change (of_int 0) with 0 in *.
  replace 0 with (k * 0) at 1 2 by ring.
  rewrite (harmonic_loop_scale k
             (harmonic g mich phiS p (orient g S_phys phiS phiK p)
                       (antenna_pattern g mich phiS phiK (t_ p)) (amplitude g M_phys p)
                       (rot (d_RotCoeff (o_lam (orient g S_phys phiS phiK p)) (g_qS g) phiS
                                        (g_qK g) phiK (alp_ p))))).
  - set (hl := harmonic_loop _ _ _ _ _).
    assert (E : hl = (a, b)) by exact H.
    now rewrite E.
  - intros m. apply harmonic_scale; reflexivity.
Qed.

(** X17: in exact arithmetic the waveform is linear in the mass [mu]: a
    valid call with [k * mu] for [mu] leaves in every cell below
    [data_length] the complex number of the call with [mu], multiplied by
    [k]. *)
Theorem make_waveform_linear_in_mu (k : R) (interp_array : list R)
    (M_phys S_phys mu qS phiS qK phiK dist : R) (nmodes : Z) (mich : bool)
    (delta_t : R) (start_t_all : list R) (interval_inds : list Z)
    (data_length init_length : Z) (s : mem R) :
  valid_call (waveform s) interp_array start_t_all interval_inds nmodes data_length
             init_length = true ->
  forall i, (0 <= i < data_length)%Z ->
    exists re im,
      nth_error (waveform (snd (make_waveform interp_array M_phys S_phys mu qS phiS qK
                                  phiK dist nmodes mich delta_t start_t_all interval_inds
                                  data_length init_length s))) (Z.to_nat i)
      = Some (mk_cmplx re im)
      /\ nth_error (waveform (snd (make_waveform interp_array M_phys S_phys (k * mu) qS
                                     phiS qK phiK dist nmodes mich delta_t start_t_all
                                     interval_inds data_length init_length s)))
                   (Z.to_nat i)
         = Some (mk_cmplx (k * re) (k * im)).
Proof.
  intros Hvalid i Hi.
  rewrite !(make_waveform_run _ _ _ _ _ _ _ _ _ _ _ _ _ _ _ _ s Hvalid).
  cbn [snd waveform]. rewrite !filled_nth by exact Hi.
  destruct (sample_defined interp_array M_phys S_phys mu qS phiS qK phiK dist nmodes mich
              delta_t start_t_all interval_inds data_length init_length (waveform s) i
              Hvalid Hi) as [h [_ Hs]].
  destruct (accumulate h nmodes) as [a b].
  unfold sample_value. rewrite (sample_scale k _ _ _ _ _ _ _ _ _ _ _ _ _ _ _ _ _ _ Hs), Hs.
  cbn [fst snd]. exists a, (- b). split; [reflexivity |].
  f_equal. f_equal. cbn [dneg Exact.arith]. ring.
Qed.

End AmplitudeExact.

(** ** The error message and its buffer *)

Section ErrorMessage.

Context {D : Type} {AD : Arith D} {LD : Libm D} {CD : Consts D}.

Local Open Scope nat_scope.

Lemma string_length_append (a b : string) :
  String.length (a ++ b) = String.length a + String.length b.
Proof. induction a as [| c a IH]; cbn; [reflexivity | now rewrite IH]. Qed.

(** Doubling a decimal number adds at most one digit. *)
Lemma nb_digits_double (d : Decimal.uint) :
  Decimal.nb_digits (Decimal.Little.double d) <= S (Decimal.nb_digits d)
  /\ Decimal.nb_digits (Decimal.Little.succ_double d) <= S (Decimal.nb_digits d).
Proof.
  induction d as [| d [IH1 IH2] | d [IH1 IH2] | d [IH1 IH2] | d [IH1 IH2] | d [IH1 IH2]
                  | d [IH1 IH2] | d [IH1 IH2] | d [IH1 IH2] | d [IH1 IH2] | d [IH1 IH2]];
    cbn [Decimal.Little.double Decimal.Little.succ_double Decimal.nb_digits]; lia.
Qed.

(** A positive number has no more decimal digits than binary ones. *)
Lemma nb_digits_to_little_uint (p : positive) :
  Decimal.nb_digits (Pos.to_little_uint p) <= Pos.size_nat p.
Proof.
  induction p as [p IH | p IH |]; cbn [Pos.to_little_uint Pos.size_nat Decimal.nb_digits].
  - pose proof (nb_digits_double (Pos.to_little_uint p)). lia.
  - pose proof (nb_digits_double (Pos.to_little_uint p)). lia.
  - lia.
Qed.

Lemma nb_digits_revapp (d d' : Decimal.uint) :
  Decimal.nb_digits (Decimal.revapp d d') = Decimal.nb_digits d + Decimal.nb_digits d'.
Proof.
  revert d'. induction d; intros d'; cbn [Decimal.revapp Decimal.nb_digits];
    try rewrite IHd; cbn [Decimal.nb_digits]; lia.
Qed.

Lemma length_string_of_uint (d : Decimal.uint) :
  String.length (NilEmpty.string_of_uint d) = Decimal.nb_digits d.
Proof.
  induction d; cbn [NilEmpty.string_of_uint String.length Decimal.nb_digits]; congruence.
Qed.

Lemma length_NilZero_string_of_uint (d : Decimal.uint) :
  String.length (NilZero.string_of_uint d) <= Nat.max 1 (Decimal.nb_digits d).
Proof.
  destruct d; unfold NilZero.string_of_uint;
    try (rewrite length_string_of_uint; lia). cbn. lia.
Qed.

Lemma size_nat_bound (p : positive) (n : nat) :
  (Z.pos p < 2 ^ Z.of_nat n)%Z -> Pos.size_nat p <= n.
Proof.
  revert n. induction p as [p IH | p IH |]; intros n H; cbn [Pos.size_nat].
  - destruct n as [| n]; [cbn in H; lia |].
    rewrite Nat2Z.inj_succ, Z.pow_succ_r in H by lia.
    apply le_n_S, IH. lia.
  - destruct n as [| n]; [cbn in H; lia |].
    rewrite Nat2Z.inj_succ, Z.pow_succ_r in H by lia.
    apply le_n_S, IH. lia.
  - destruct n as [| n]; [cbn in H; lia | lia].
Qed.

(** [%d] of an [int] prints at most 33 characters. *)
Lemma length_format_int (z : Z) :
  in_int z = true -> String.length (format_int z) <= 33.
Proof.
  unfold in_int, INT_MIN, INT_MAX. rewrite andb_true_iff, !Z.leb_le. intros Hz.
  unfold format_int, NilZero.string_of_int, Z.to_int.
  destruct z as [| p | p].
  - cbn. lia.
  - pose proof (length_NilZero_string_of_uint (Pos.to_uint p)) as H.
    unfold Pos.to_uint, Decimal.rev in *. rewrite nb_digits_revapp in H.
    pose proof (nb_digits_to_little_uint p).
    pose proof (size_nat_bound p 32 ltac:(change (2 ^ Z.of_nat 32)%Z with 4294967296%Z; lia)).
    cbn [Decimal.nb_digits] in H. lia.
  - pose proof (length_NilZero_string_of_uint (Pos.to_uint p)) as H.
    unfold Pos.to_uint, Decimal.rev in *. rewrite nb_digits_revapp in H.
    pose proof (nb_digits_to_little_uint p).
    pose proof (size_nat_bound p 32 ltac:(change (2 ^ Z.of_nat 32)%Z with 4294967296%Z; lia)).
    cbn [Decimal.nb_digits String.length] in *. lia.
Qed.

(** X16: whatever [int] above 160 the number of segments is, the message
    [sprintf] writes, with its terminating zero byte, fits the 1000 bytes of
    [char str[1000]] (line 436), and it is the message [get_waveform]
    raises. *)
Theorem get_waveform_message_fits (interp_array : list D)
    (M_phys S_phys mu qS phiS qK phiK dist : D) (nmodes : Z) (mich : bool)
    (init_len out_len : Z) (delta_t : D) (t : list D) (interval_inds : list Z)
    (s : mem D) :
  in_int init_len = true -> (160 < init_len)%Z ->
  exists msg,
    get_waveform interp_array M_phys S_phys mu qS phiS qK phiK dist nmodes mich
                 init_len out_len delta_t t interval_inds s = (Raised msg 23, s)
    /\ String.length msg + 1 <= 1000.
Proof.
  intros Hint Hbig. unfold get_waveform, MAX_SPLINE_POINTS.
  replace (init_len >? 160)%Z with true by (symmetry; lia).
  eexists. split; [reflexivity |].
  rewrite !string_length_append.
  pose proof (length_format_int init_len Hint) as Hlen.
  set (n := String.length (format_int init_len)) in *.
  vm_compute String.length. lia.
Qed.

End ErrorMessage.

(** ** The further properties at example inputs *)

Lemma make_waveform_frame_witness :
  (let r := make_waveform Example.interp 1 1 1 1 1 1 1 1 2 false 1 Example.knots
                          Example.seg_map 1 1 Example.buffer in
   List.length (waveform (snd r)) = 2%nat
   /\ nth_error (waveform (snd r)) 1 = Some (mk_cmplx 7 7))%R.
Proof.
  pose proof (make_waveform_frame Example.interp 1 1 1 1 1 1 1 1 2 false 1 Example.knots
                Example.seg_map 1 1 Example.buffer eq_refl)%R as [Hlen Hrest].
  split; [exact Hlen | exact (Hrest 1%nat ltac:(cbn; lia))].
Defined.

Lemma make_waveform_idempotent_witness :
  (let s1 := snd (make_waveform Example.interp 1 1 1 1 1 1 1 1 2 false 1 Example.knots
                                Example.seg_map 2 1 Example.buffer) in
   fst (make_waveform Example.interp 1 1 1 1 1 1 1 1 2 false 1 Example.knots
                      Example.seg_map 2 1 s1) = Done tt
   /\ waveform (snd (make_waveform Example.interp 1 1 1 1 1 1 1 1 2 false 1 Example.knots
                                   Example.seg_map 2 1 s1)) = waveform s1)%R.
Proof.
  exact (make_waveform_idempotent Example.interp 1 1 1 1 1 1 1 1 2 false 1 Example.knots
           Example.seg_map 2 1 Example.buffer eq_refl)%R.
Defined.

Lemma make_waveform_empty_witness :
  (make_waveform Example.interp 1 1 1 1 1 1 1 1 2 false 1 Example.knots
                 Example.seg_map 0 1 Example.buffer = (Done tt, Example.buffer))%R.
Proof.
  exact (make_waveform_empty Example.interp 1 1 1 1 1 1 1 1 2 false 1 Example.knots
           Example.seg_map 0 1 Example.buffer eq_refl ltac:(lia))%R.
Defined.

Lemma make_waveform_overflow_witness :
  (make_waveform Example.interp160 1 1 1 1 1 1 1 1 2 false 1 Example.knots160
                 Example.seg_map 2 161 Example.buffer = (Undefined, Example.buffer))%R.
Proof.
  exact (make_waveform_overflow Example.interp160 1 1 1 1 1 1 1 1 2 false 1
           Example.knots160 Example.seg_map 2 161 Example.buffer
           ltac:(unfold MAX_SPLINE_POINTS; lia))%R.
Defined.



Lemma sample_next_mode_witness :
  (exists (h : Z -> R * R) (hItemp hIItemp : R),
     sample (staged (NUM_PARS * 4 * MAX_SPLINE_POINTS) (4 * NUM_PARS * 1) Example.interp)
            (staged MAX_SPLINE_POINTS 1 Example.knots) (unroll 1 1 1 1 1)
            1 1 1 1 2 false 1 Example.seg_map 1 1 = Done (hItemp, hIItemp)
     /\ sample (staged (NUM_PARS * 4 * MAX_SPLINE_POINTS) (4 * NUM_PARS * 1) Example.interp)
               (staged MAX_SPLINE_POINTS 1 Example.knots) (unroll 1 1 1 1 1)
               1 1 1 1 (2 + 1) false 1 Example.seg_map 1 1
        = Done (hItemp + fst (h 3%Z), hIItemp + snd (h 3%Z)))%R.
Proof.
  destruct (sample_defined Example.interp 1 1 1 1 1 1 1 1 2 false 1 Example.knots
              Example.seg_map 2 1 (waveform Example.buffer) 1 eq_refl ltac:(lia))%R
    as [h [Hh _]].
  destruct (sample_next_mode 1 1 1 1 2 false 1 Example.seg_map 1 _ _ _ 1 h
              ltac:(lia) ltac:(unfold INT_MAX; lia) Hh)%R as [a [b Hab]].
  exists h, a, b. exact Hab.
Defined.

Lemma find_start_inds_frame_witness :
  nth_error (start_inds (mk_located [0; 3; 10; 7] [3; 7; 9] 3 2)) 3 = nth_error [7; 7; 7; 7] 3
  /\ nth_error (unit_length (mk_located [0; 3; 10; 7] [3; 7; 9] 3 2)) 2 = nth_error [9; 9; 9] 2.
Proof.
  assert (H : find_start_inds [7; 7; 7; 7] [9; 9; 9] [0; 1.5; 20; 30]%float 0.5%float 4 10
              = Done (mk_located [0; 3; 10; 7] [3; 7; 9] 3 2))
    by (vm_compute; reflexivity).
  destruct (find_start_inds_frame _ _ _ _ _ _ _ H) as [_ [Hsi [Hul _]]].
  split; [apply (Hsi 3%nat) | apply (Hul 2%nat)]; cbn; lia.
Defined.

Lemma find_start_inds_first_sample_witness :
  (exists r,
     find_start_inds [0; 0; 0]%Z [0; 0]%Z [0; 1; 2] 1 3 10 = Done r
     /\ (sumZ (firstn 2 (unit_length r)) < 10)%Z)%R.
Proof.
  destruct (find_start_inds_first_sample [0; 1; 2] 1 10 ltac:(lra)
              ltac:(unfold INT_MAX; lia) [0; 0; 0]%Z [0; 0]%Z 3 eq_refl ltac:(lia))%R
    as [r [Hr [_ Hsum]]].
  - intros i Hi. change (Z.to_nat 3) with 3%nat in Hi.
    destruct i as [| [| [| i]]]; cbn [nth]; try lia; cbn; lra.
  - exists r. split; [exact Hr | exact Hsum].
Defined.

Lemma find_start_inds_lengths_nonneg_witness :
  (exists r d,
     find_start_inds [0; 0; 0]%Z [0; 0]%Z [0; 1; 2] 1 3 10 = Done r
     /\ nth_error (unit_length r) 1 = Some d /\ (0 <= d)%Z)%R.
Proof.
  destruct (find_start_inds_lengths_nonneg [0; 1; 2] 1 10 ltac:(lra)
              ltac:(unfold INT_MAX; lia) [0; 0; 0]%Z [0; 0]%Z 3 eq_refl ltac:(lia))%R
    as [r [Hr Hd]].
  - intros i Hi. change (Z.to_nat 3) with 3%nat in Hi.
    destruct i as [| [| [| i]]]; cbn [nth]; try lia; cbn; lra.
  - intros i Hi Hsi. change (Z.to_nat 3) with 3%nat in Hsi.
    destruct i as [| [| i]]; cbn [nth]; try lia; lra.
  - destruct (Hd 1%nat ltac:(cbn; lia)) as [d [Hd1 Hd2]].
    exists r, d. split; [exact Hr |]. split; [exact Hd1 | exact Hd2].
Defined.

Lemma get_waveform_message_fits_witness :
  (exists msg,
     get_waveform Example.interp160 1 1 1 1 1 1 1 1 2 false 161 2 1 Example.knots160
                  Example.seg_map Example.buffer = (Raised msg 23, Example.buffer)
     /\ (String.length msg + 1 <= 1000)%nat)%R.
Proof.
  exact (get_waveform_message_fits Example.interp160 1 1 1 1 1 1 1 1 2 false 161 2 1
           Example.knots160 Example.seg_map Example.buffer eq_refl ltac:(lia))%R.
Defined.

Lemma make_waveform_linear_in_mu_witness :
  (exists re im,
     nth_error (waveform (snd (make_waveform Example.interp 1 1 1 1 1 1 1 1 2 false 1
                                 Example.knots Example.seg_map 2 1 Example.buffer))) 0
     = Some (mk_cmplx re im)
     /\ nth_error (waveform (snd (make_waveform Example.interp 1 1 (3 * 1) 1 1 1 1 1 2 false
                                    1 Example.knots Example.seg_map 2 1 Example.buffer))) 0
        = Some (mk_cmplx (3 * re) (3 * im)))%R.
Proof.
  exact (make_waveform_linear_in_mu 3 Example.interp 1 1 1 1 1 1 1 1 2 false 1
           Example.knots Example.seg_map 2 1 Example.buffer eq_refl 0%Z ltac:(lia))%R.
Defined.
